(** * The analytics engine of the copper-order dashboard (panel.py)

    A shallow embedding of the numeric core of [panel.py]: the order
    calculator [calculate_order], the indicators [calculate_rsi] and
    [calculate_trend], the price projection [project_future_price] with the
    scenario pairing of [update_dashboard], and the sensitivity grid.

    Numbers.  Python's [float] is modelled by [float64]: an exact rational,
    one of the two infinities, or NaN.  Arithmetic is exact on rationals (no
    rounding) and follows IEEE 754 on the special values; signed zeros are
    not tracked, a zero divisor counts as +0.  Rationals are compared with
    [Qeq], so results are compared with [same_value].

    What the exact model leaves out is rounding, overflow and underflow.
    Statements that classify a result as a number or NaN are made for
    inputs of [ordinary] magnitude, where binary64 neither overflows nor
    underflows; statements that depend on the sign of a zero divisor are
    made for non-negative factors.  Module [Binary64] runs the order
    calculator on IEEE binary64 itself, to show where rounding decides. *)

From Stdlib Require Import String.
From Stdlib Require Import QArith Qminmax Qabs Lqa Lia List Bool Arith ZArith Morphisms Setoid.
From Stdlib Require PrimFloat Uint63.
Import ListNotations.

Open Scope Q_scope.

(** ** Floating-point values *)

Inductive float64 : Type :=
| Fin (q : Q)
| PInf
| NInf
| NaN.

Coercion Fin : Q >-> float64.

Declare Scope float_scope.
Delimit Scope float_scope with F.
Bind Scope float_scope with float64.

(** [np.isnan] *)
Definition isnan (x : float64) : bool :=
  match x with NaN => true | _ => false end.

Definition is_finite (x : float64) : bool :=
  match x with Fin _ => true | _ => false end.

Definition inf_of_sign (c : comparison) : float64 :=
  match c with Gt => PInf | Lt => NInf | Eq => NaN end.

Definition fopp (x : float64) : float64 :=
  match x with
  | Fin a => Fin (- a)
  | PInf => NInf
  | NInf => PInf
  | NaN => NaN
  end.

Definition fadd (x y : float64) : float64 :=
  match x, y with
  | NaN, _ | _, NaN => NaN
  | Fin a, Fin b => Fin (a + b)
  | PInf, NInf | NInf, PInf => NaN
  | PInf, _ | _, PInf => PInf
  | NInf, _ | _, NInf => NInf
  end.

Definition fsub (x y : float64) : float64 := fadd x (fopp y).

Definition fmul (x y : float64) : float64 :=
  match x, y with
  | NaN, _ | _, NaN => NaN
  | Fin a, Fin b => Fin (a * b)
  | Fin a, PInf | PInf, Fin a => inf_of_sign (a ?= 0)
  | Fin a, NInf | NInf, Fin a => inf_of_sign (CompOpp (a ?= 0))
  | PInf, PInf | NInf, NInf => PInf
  | PInf, NInf | NInf, PInf => NInf
  end.

(** numpy's division: a finite non-zero value over zero is an infinity,
    0/0 is NaN.  (Plain Python raises on a zero divisor; every division of
    [calculate_order] by a variable is guarded by a test against zero.) *)
Definition fdiv (x y : float64) : float64 :=
  match x, y with
  | NaN, _ | _, NaN => NaN
  | Fin a, Fin b => if Qeq_bool b 0 then inf_of_sign (a ?= 0) else Fin (a / b)
  | Fin _, PInf | Fin _, NInf => Fin 0
  | PInf, Fin b => match b ?= 0 with Lt => NInf | _ => PInf end
  | NInf, Fin b => match b ?= 0 with Lt => PInf | _ => NInf end
  | _, _ => NaN
  end.

(** Comparisons; every ordered comparison with NaN is false, [!=] is true. *)
Definition fcompare (x y : float64) : option comparison :=
  match x, y with
  | NaN, _ | _, NaN => None
  | Fin a, Fin b => Some (a ?= b)
  | PInf, PInf | NInf, NInf => Some Eq
  | NInf, _ | _, PInf => Some Lt
  | _, NInf | PInf, _ => Some Gt
  end.

Definition fge (x y : float64) : bool :=
  match fcompare x y with Some Gt | Some Eq => true | _ => false end.
Definition fgt (x y : float64) : bool :=
  match fcompare x y with Some Gt => true | _ => false end.
Definition fle (x y : float64) : bool :=
  match fcompare x y with Some Lt | Some Eq => true | _ => false end.
Definition flt (x y : float64) : bool :=
  match fcompare x y with Some Lt => true | _ => false end.
Definition fne (x y : float64) : bool :=
  match fcompare x y with Some Eq => false | _ => true end.

Infix "+" := fadd : float_scope.
Infix "-" := fsub : float_scope.
Infix "*" := fmul : float_scope.
Infix "/" := fdiv : float_scope.
Notation "- x" := (fopp x) : float_scope.

(** Two results denote the same value: the same special value, or equal
    rationals. *)
Definition same_value (x y : float64) : Prop :=
  match x, y with
  | Fin a, Fin b => a == b
  | PInf, PInf | NInf, NInf | NaN, NaN => True
  | _, _ => False
  end.

Definition same_valueb (x y : float64) : bool :=
  match x, y with
  | Fin a, Fin b => Qeq_bool a b
  | PInf, PInf | NInf, NInf | NaN, NaN => true
  | _, _ => false
  end.

Infix "=f=" := same_value (at level 70, no associativity).

(** [x] is a number and at least [lo] / at most [hi] / below [y]. *)
Definition at_least (lo : Q) (x : float64) : Prop :=
  match x with Fin a => lo <= a | PInf => True | _ => False end.

Definition within (lo hi : Q) (x : float64) : Prop :=
  match x with Fin a => lo <= a <= hi | _ => False end.

Definition below (x y : float64) : Prop :=
  match x, y with Fin a, Fin b => a < b | _, _ => False end.

Definition not_above (x y : float64) : Prop :=
  match x, y with Fin a, Fin b => a <= b | _, _ => False end.

(** ** OrderCalculator *)

(** The nine values [calculate_order] returns, under the names of its local
    variables. *)
Record OrderResult : Type := mkOrder {
  budget_cny : float64;
  copper_budget_cny : float64;
  other_budget_cny : float64;
  copper_quantity_lb : float64;
  copper_quantity_ton : float64;
  transport_cost_cny : float64;
  other_cost_cny : float64;
  total_order_cost_cny : float64;
  budget_status : float64
}.

(** Nine NaN: the result for a missing price. *)
Definition unavailable : OrderResult :=
  mkOrder NaN NaN NaN NaN NaN NaN NaN NaN NaN.

Definition fields (r : OrderResult) : list float64 :=
  [budget_cny r; copper_budget_cny r; other_budget_cny r;
   copper_quantity_lb r; copper_quantity_ton r; transport_cost_cny r;
   other_cost_cny r; total_order_cost_cny r; budget_status r].

Definition is_unavailable (r : OrderResult) : bool :=
  forallb isnan (fields r).

Definition lb_to_ton : Q := 0.000453592.

Definition calculate_order
  (budget_eur copper_pct transport_factor
   copper_price oil_price eur_cny_price usd_cny_price : float64) : OrderResult :=
  if existsb isnan [copper_price; oil_price; eur_cny_price; usd_cny_price]
  then unavailable
  else
    let budget_cny := (budget_eur * eur_cny_price)%F in
    let copper_budget_cny := (budget_cny * (copper_pct / 100))%F in
    let other_budget_cny := (budget_cny * (1 - copper_pct / 100))%F in
    let copper_price_cny := (copper_price * usd_cny_price)%F in
    let oil_price_cny := (oil_price * usd_cny_price)%F in
    let copper_quantity_lb :=
      if fne copper_price_cny 0 then (copper_budget_cny / copper_price_cny)%F
      else NaN in
    let copper_quantity_ton :=
      if negb (isnan copper_quantity_lb) then (copper_quantity_lb * lb_to_ton)%F
      else NaN in
    let transport_cost_cny :=
      if negb (isnan oil_price_cny) then (oil_price_cny * transport_factor / 100)%F
      else Fin 0 in
    let other_cost_cny :=
      if fge other_budget_cny transport_cost_cny
      then (other_budget_cny - transport_cost_cny)%F
      else Fin 0 in
    let total_order_cost_cny :=
      (copper_budget_cny + transport_cost_cny + other_cost_cny)%F in
    let budget_status := (budget_cny - total_order_cost_cny)%F in
    mkOrder budget_cny copper_budget_cny other_budget_cny copper_quantity_lb
            copper_quantity_ton transport_cost_cny other_cost_cny
            total_order_cost_cny budget_status.

(** [Series.clip(lower=lo)] and [Series.clip(upper=hi)] on one entry; NaN
    stays NaN. *)
Definition clip_lower (lo x : float64) : float64 := if flt x lo then lo else x.
Definition clip_upper (hi x : float64) : float64 := if fgt x hi then hi else x.

(** One row of [calculate_historical_orders]: the same breakdown written
    with column arithmetic, the floor at zero done by [clip(lower=0)] and
    the division left unguarded. *)
Definition historical_order_row
  (budget_eur copper_pct transport_factor copper oil eur_cny usd_cny : float64)
  : OrderResult :=
  let budget := (budget_eur * eur_cny)%F in
  let copper_budget := (budget * (copper_pct / 100))%F in
  let other_budget := (budget * (1 - copper_pct / 100))%F in
  let copper_price_cny := (copper * usd_cny)%F in
  let transport_cost := ((oil * usd_cny) * (transport_factor / 100))%F in
  let other_cost := clip_lower 0 (other_budget - transport_cost)%F in
  let quantity_lb := (copper_budget / copper_price_cny)%F in
  let quantity_ton := (quantity_lb * lb_to_ton)%F in
  let total := (copper_budget + transport_cost + other_cost)%F in
  mkOrder budget copper_budget other_budget quantity_lb quantity_ton
          transport_cost other_cost total (budget - total)%F.

(** ** Series *)

(** A column of closes is a list of values in time order; a missing
    observation is NaN. *)
Definition series : Type := list float64.

Definition dropna (s : series) : series :=
  filter (fun x => negb (isnan x)) s.

(** [Series.tail(n)]: the last [n] entries, all of them if there are fewer. *)
Definition tail (n : nat) (s : series) : series :=
  skipn (length s - n) s.

(** [Series.iloc[-1]] *)
Definition iloc_last (s : series) : float64 := last s NaN.

Definition of_nat (n : nat) : float64 := Fin (inject_Z (Z.of_nat n)).

Fixpoint diff_from (prev : float64) (s : series) : series :=
  match s with
  | [] => []
  | x :: rest => (x - prev)%F :: diff_from x rest
  end.

(** [Series.diff()]: the first entry has no predecessor and is NaN. *)
Definition diff (s : series) : series :=
  match s with
  | [] => []
  | x :: rest => NaN :: diff_from x rest
  end.

Fixpoint zip_with (f : float64 -> float64 -> float64) (a b : series) : series :=
  match a, b with
  | x :: a', y :: b' => f x y :: zip_with f a' b'
  | _, _ => []
  end.

(** *** Exponentially weighted mean

    [Series.ewm(alpha, adjust, min_periods).mean()] with [ignore_na=False],
    as the loop of pandas computes it: a running weighted average, the
    weight of the past, and the count of observations seen. *)
Record ewm_acc : Type := mkAcc {
  weighted : float64;
  old_wt : Q;
  nobs : nat
}.

Definition ewm_step (alpha : Q) (adjust : bool) (acc : ewm_acc) (cur : float64)
  : ewm_acc :=
  let old_wt_factor := 1 - alpha in
  let new_wt := if adjust then 1 else alpha in
  let is_observation := negb (isnan cur) in
  let nobs' := (nobs acc + if is_observation then 1 else 0)%nat in
  if negb (isnan (weighted acc)) then
    let old_wt1 := old_wt acc * old_wt_factor in
    if is_observation then
      let weighted' :=
        if fne (weighted acc) cur
        then ((Fin old_wt1 * weighted acc + Fin new_wt * cur) / Fin (old_wt1 + new_wt))%F
        else weighted acc in
      mkAcc weighted' (if adjust then old_wt1 + new_wt else 1) nobs'
    else mkAcc (weighted acc) old_wt1 nobs'
  else if is_observation then mkAcc cur (old_wt acc) nobs'
  else mkAcc (weighted acc) (old_wt acc) nobs'.

Definition ewm_out (minp : nat) (acc : ewm_acc) : float64 :=
  if (minp <=? nobs acc)%nat then weighted acc else NaN.

Fixpoint ewm_scan (alpha : Q) (adjust : bool) (minp : nat) (acc : ewm_acc)
  (vals : series) : series :=
  match vals with
  | [] => []
  | cur :: rest =>
      let acc' := ewm_step alpha adjust acc cur in
      ewm_out minp acc' :: ewm_scan alpha adjust minp acc' rest
  end.

Definition ewm_mean (alpha : Q) (adjust : bool) (min_periods : nat) (vals : series)
  : series :=
  match vals with
  | [] => []
  | v0 :: rest =>
      let minp := Nat.max min_periods 1 in
      let acc0 := mkAcc v0 1 (if isnan v0 then 0 else 1)%nat in
      ewm_out minp acc0 :: ewm_scan alpha adjust minp acc0 rest
  end.

(** [span] to [alpha]: alpha = 2 / (span + 1). *)
Definition alpha_of_span (span : nat) : Q :=
  2 / (inject_Z (Z.of_nat span) + 1).

(** *** Mean, variance, least squares *)

Definition fsum (s : series) : float64 := fold_left fadd s (Fin 0).

Definition fmean (s : series) : float64 := (fsum s / of_nat (length s))%F.

(** Sample variance ([ddof=1]), the square of [Series.std()]. *)
Definition sample_var (s : series) : float64 :=
  let m := fmean s in
  (fsum (map (fun x => (x - m) * (x - m))%F s) / (of_nat (length s) - 1))%F.

Definition arange (n : nat) : series := map of_nat (seq 0 n).

(** The slope of [scipy.stats.linregress]: the covariance of x and y over
    the variance of x, both from [np.cov(x, y, bias=1)]. *)
Definition linregress_slope (x y : series) : float64 :=
  let xmean := fmean x in
  let ymean := fmean y in
  let ssxm := fmean (map (fun a => (a - xmean) * (a - xmean))%F x) in
  let ssxym := fmean (zip_with (fun a b => (a - xmean) * (b - ymean))%F x y) in
  (ssxym / ssxm)%F.

(** ** IndicatorLibrary *)

Definition calculate_rsi (close : series) (period : nat) : float64 :=
  if (length close =? 0)%nat || (length close <? period + 1)%nat then NaN
  else
    let delta := diff close in
    let gain := map (clip_lower 0) delta in
    let loss := map fopp (map (clip_upper 0) delta) in
    let alpha := 1 / inject_Z (Z.of_nat period) in
    let avg_gain := ewm_mean alpha true period gain in
    let avg_loss := ewm_mean alpha true period loss in
    let rs := zip_with fdiv avg_gain avg_loss in
    let rsi := map (fun r => 100 - (100 / (1 + r)))%F rs in
    iloc_last rsi.

Definition calculate_trend (close : series) (period : nat) : float64 * string :=
  if (length close =? 0)%nat || (length close <? period)%nat
  then (NaN, "Indeterminada"%string)
  else
    let last_period := tail period close in
    let x := arange (length last_period) in
    let slope := linregress_slope x last_period in
    (slope, if fgt slope 0 then "Alcista"%string else "Bajista"%string).

(** ** ProjectionEngine *)

Definition nan3 : float64 * float64 * float64 := (NaN, NaN, NaN).

Section Projection.

(** [np.sqrt], and through it [Series.std()], leave the rationals; the
    square root is a parameter of the projection. *)
Variable np_sqrt : float64 -> float64.

(** [Series.std()]: missing entries are skipped. *)
Definition series_std (s : series) : float64 :=
  np_sqrt (sample_var (dropna s)).

(** Returns (ema, ema - std, ema + std).  A span of 0 is rejected by
    pandas; the [except] clause turns that into the NaN triple. *)
Definition project_future_price (close : series) (span : nat)
  : float64 * float64 * float64 :=
  if (length close =? 0)%nat then nan3
  else
    let close_data := dropna close in
    if (length close_data <? 2)%nat then nan3
    else
      let tail_len := Nat.min span (length close_data) in
      if (tail_len <? 1)%nat then nan3
      else
        let ema_series :=
          dropna (ewm_mean (alpha_of_span tail_len) false 0 close_data) in
        if (length ema_series =? 0)%nat then nan3
        else
          let ema_value := iloc_last ema_series in
          let std_value := series_std (tail tail_len close_data) in
          if isnan ema_value then nan3
          else (ema_value, (ema_value - std_value)%F, (ema_value + std_value)%F).

(** One instrument of the 4-month projection of [update_dashboard]:
    [hist] is the instrument's own history, [column] its column in the
    merged table [historical_df], [price] its current price.  Returns
    (future, future_min, future_max). *)
Definition project_instrument (hist column : series) (price : float64)
  (span days_ahead : nat) : float64 * float64 * float64 :=
  let '(ema, ema_min, ema_max) := project_future_price hist span in
  if negb (isnan ema) then
    let slope := fst (calculate_trend hist span) in
    let future := (ema + slope * of_nat days_ahead)%F in
    let future_min :=
      (ema_min + slope * of_nat days_ahead
       - series_std column * np_sqrt (of_nat days_ahead) / np_sqrt 252)%F in
    let future_max :=
      (ema_max + slope * of_nat days_ahead
       + series_std column * np_sqrt (of_nat days_ahead) / np_sqrt 252)%F in
    (future, future_min, future_max)
  else (price, price, price).

End Projection.

(** The three orders of the projection, from the (future, min, max) triple
    of each instrument: the expected scenario, then the scenario shown as
    "Min (ton)", then the one shown as "Max (ton)".  Each is the
    [copper_quantity_ton] of its order. *)
Definition projected_quantities
  (budget_eur copper_percentage transport_cost_factor : float64)
  (copper oil eur_cny usd_cny : float64 * float64 * float64)
  : float64 * float64 * float64 :=
  let '(copper_future, copper_future_min, copper_future_max) := copper in
  let '(oil_future, oil_future_min, oil_future_max) := oil in
  let '(eur_cny_future, eur_cny_future_min, eur_cny_future_max) := eur_cny in
  let '(usd_cny_future, usd_cny_future_min, usd_cny_future_max) := usd_cny in
  let future_copper_quantity_ton :=
    copper_quantity_ton
      (calculate_order budget_eur copper_percentage transport_cost_factor
         copper_future oil_future eur_cny_future usd_cny_future) in
  let min_copper_quantity_ton :=
    copper_quantity_ton
      (calculate_order budget_eur copper_percentage transport_cost_factor
         copper_future_max oil_future_max eur_cny_future_min usd_cny_future_max) in
  let max_copper_quantity_ton :=
    copper_quantity_ton
      (calculate_order budget_eur copper_percentage transport_cost_factor
         copper_future_min oil_future_min eur_cny_future_max usd_cny_future_min) in
  (future_copper_quantity_ton, min_copper_quantity_ton, max_copper_quantity_ton).

(** ** SensitivityAnalyzer *)

(** The [variations] dictionary, in insertion order. *)
Definition variations (copper_price oil_price eur_cny_price usd_cny_price : float64)
  : list (string * (float64 * float64 * float64 * float64)) :=
  [ ("Cobre +5%"%string, ((copper_price * 1.05)%F, oil_price, eur_cny_price, usd_cny_price));
    ("Cobre -5%"%string, ((copper_price * 0.95)%F, oil_price, eur_cny_price, usd_cny_price));
    ("Petróleo +5%"%string, (copper_price, (oil_price * 1.05)%F, eur_cny_price, usd_cny_price));
    ("Petróleo -5%"%string, (copper_price, (oil_price * 0.95)%F, eur_cny_price, usd_cny_price));
    ("EUR/CNY +5%"%string, (copper_price, oil_price, (eur_cny_price * 1.05)%F, usd_cny_price));
    ("EUR/CNY -5%"%string, (copper_price, oil_price, (eur_cny_price * 0.95)%F, usd_cny_price)) ].

(** The loop filling [sensitivity_results]: one order per scenario, its
    [copper_quantity_ton] recorded under the scenario's label. *)
Definition sensitivity_results
  (budget_eur copper_percentage transport_cost_factor
   copper_price oil_price eur_cny_price usd_cny_price : float64)
  : list (string * float64) :=
  map (fun '(label, (c_p, o_p, e_c, u_c)) =>
         (label,
          copper_quantity_ton
            (calculate_order budget_eur copper_percentage transport_cost_factor
               c_p o_p e_c u_c)))
      (variations copper_price oil_price eur_cny_price usd_cny_price).

Fixpoint lookup (label : string) (d : list (string * float64)) : option float64 :=
  match d with
  | [] => None
  | (k, v) :: rest => if String.eqb k label then Some v else lookup label rest
  end.

(** The unperturbed order of the same refresh. *)
Definition baseline_quantity
  (budget_eur copper_percentage transport_cost_factor
   copper_price oil_price eur_cny_price usd_cny_price : float64) : float64 :=
  copper_quantity_ton
    (calculate_order budget_eur copper_percentage transport_cost_factor
       copper_price oil_price eur_cny_price usd_cny_price).

(** Python's [min(a, b)]: [b] when [b < a], else [a]. *)
Definition fmin (a b : float64) : float64 := if flt b a then b else a.

(** What the order calculator accepts as a price: a number or NaN. *)
Definition is_price (x : float64) : Prop :=
  match x with Fin _ | NaN => True | _ => False end.

(** ** Reference definitions

    The textbook forms the code is compared with. *)

Definition Qsum (l : list Q) : Q := fold_right Qplus 0 l.

Definition Qmean (l : list Q) : Q := Qsum l / inject_Z (Z.of_nat (length l)).

Definition indices (n : nat) : list Q :=
  map (fun i => inject_Z (Z.of_nat i)) (seq 0 n).

(** Ordinary least squares of [ys] against the index 0, 1, ..., n-1:
    slope = sum (i - mean i) (y_i - mean y) / sum (i - mean i)^2. *)
Definition ols_slope (ys : list Q) : Q :=
  let xs := indices (length ys) in
  let xm := Qmean xs in
  let ym := Qmean ys in
  Qsum (map (fun xy => (fst xy - xm) * (snd xy - ym)) (combine xs ys))
  / Qsum (map (fun x => (x - xm) * (x - xm)) xs).

(** The last [n] entries of a list. *)
Definition lastn {A : Type} (n : nat) (l : list A) : list A :=
  skipn (length l - n) l.

(** The two smoothed averages inside [calculate_rsi], at the last row. *)
Definition smoothed_gain (close : series) (period : nat) : float64 :=
  iloc_last (ewm_mean (1 / inject_Z (Z.of_nat period)) true period
               (map (clip_lower 0) (diff close))).

Definition smoothed_loss (close : series) (period : nat) : float64 :=
  iloc_last (ewm_mean (1 / inject_Z (Z.of_nat period)) true period
               (map fopp (map (clip_upper 0) (diff close)))).

(** Successive differences, positive parts and sign-flipped negative parts
    of rational closes. *)
Fixpoint Qdiffs (prev : Q) (l : list Q) : list Q :=
  match l with
  | [] => []
  | x :: rest => (x - prev) :: Qdiffs x rest
  end.

Definition gain_of (d : Q) : Q := match d ?= 0 with Lt => 0 | _ => d end.
Definition loss_of (d : Q) : Q := - match d ?= 0 with Gt => 0 | _ => d end.

(** The accumulator of the exponentially weighted mean after all of
    [vals]. *)
Definition ewm_run (alpha : Q) (adjust : bool) (acc : ewm_acc) (vals : series)
  : ewm_acc :=
  fold_left (ewm_step alpha adjust) vals acc.

(** The accumulator holds a rational satisfying [P], with a past weight of
    at least 1. *)
Definition acc_holds (P : Q -> Prop) (acc : ewm_acc) : Prop :=
  exists w, weighted acc = Fin w /\ P w /\ 1 <= old_wt acc.

(** [P] is closed under the update of the adjusted mean. *)
Definition closed_under_average (P : Q -> Prop) : Prop :=
  forall a w x, 0 <= a -> P w -> P x -> P ((a * w + 1 * x) / (a + 1)).

(** Each close is above the one before. *)
Definition strictly_increasing (qs : list Q) : Prop :=
  match qs with
  | [] => True
  | q0 :: rest => Forall (fun d => 0 < d) (Qdiffs q0 rest)
  end.

(** The exponential moving average as a recurrence: y_0 = x_0 and
    y_t = (1 - alpha) y_(t-1) + alpha x_t; the value is the last y. *)
Definition ema_recurrence (alpha : Q) (xs : list Q) : Q :=
  match xs with
  | [] => 0
  | x0 :: rest => fold_left (fun y x => (1 - alpha) * y + alpha * x) rest x0
  end.

(** The claim's reading of the projection's level: the moving average
    with span [tail] taken over only the last [tail] closes. *)
Definition ema_over_tail_only (qs : list Q) (span : nat) : Q :=
  let tail_len := Nat.min span (length qs) in
  ema_recurrence (alpha_of_span tail_len) (lastn tail_len qs).

(** ** Session data, downloads and the remaining indicators *)

(** [st.session_state.data]: six parallel lists, one entry per refresh.
    A timestamp is a number of seconds. *)
Module Realtime.

Record data : Type := mkData {
  copper : series;
  oil : series;
  eur_cny : series;
  usd_cny : series;
  copper_quantity_ton : series;
  timestamps : list Z
}.

(** The state created on the first run. *)
Definition initial : data := mkData [] [] [] [] [] [].

(** [l[-100:]] *)
Definition last_100 {A : Type} (l : list A) : list A := lastn 100 l.

Definition append_realtime_data (d : data)
  (copper_price oil_price eur_cny_price usd_cny_price quantity_ton : float64)
  (timestamp : Z) : data :=
  mkData (last_100 (copper d ++ [copper_price]))
         (last_100 (oil d ++ [oil_price]))
         (last_100 (eur_cny d ++ [eur_cny_price]))
         (last_100 (usd_cny d ++ [usd_cny_price]))
         (last_100 (copper_quantity_ton d ++ [quantity_ton]))
         (last_100 (timestamps d ++ [timestamp])).

(** One observation: the four prices, the quantity and the time. *)
Definition observation : Type :=
  (float64 * float64 * float64 * float64 * float64 * Z)%type.

Definition append_observation (d : data) (ob : observation) : data :=
  let '(c, o, e, u, q, ts) := ob in append_realtime_data d c o e u q ts.

End Realtime.

(** The four downloaded tables, each by its Close column. *)
Definition frames : Type := (series * series * series * series)%type.

Definition empty_frames : frames := ([], [], [], []).

(** The retry loop of [fetch_historical_data].  [download attempt] is what
    the four downloads of that attempt give, [None] when one of them
    raises.  An attempt is rejected when a table is empty or has fewer
    than 30 rows. *)
Fixpoint fetch_attempts (download : nat -> option frames)
  (attempt remaining : nat) : frames :=
  match remaining with
  | O => empty_frames
  | S remaining' =>
      match download attempt with
      | None => fetch_attempts download (S attempt) remaining'
      | Some (copper, oil, eur_cny, usd_cny) =>
          if existsb (fun df => (length df =? 0)%nat) [copper; oil; eur_cny; usd_cny]
          then fetch_attempts download (S attempt) remaining'
          else if existsb (fun df => (length df <? 30)%nat)
                    [copper; oil; eur_cny; usd_cny]
          then fetch_attempts download (S attempt) remaining'
          else (copper, oil, eur_cny, usd_cny)
      end
  end.

Definition max_retries : nat := 3.

Definition fetch_historical_data (download : nat -> option frames) : frames :=
  fetch_attempts download 0 max_retries.

(** [np.argmin]: the index of the first smallest entry. *)
Fixpoint argmin_from (best_idx : nat) (best : Z) (idx : nat) (l : list Z) : nat :=
  match l with
  | [] => best_idx
  | x :: rest =>
      if (x <? best)%Z then argmin_from idx x (S idx) rest
      else argmin_from best_idx best (S idx) rest
  end.

Definition argmin (l : list Z) : nat :=
  match l with
  | [] => O
  | x :: rest => argmin_from 0 x 1 rest
  end.

(** [get_closest_data]: [download] is the table of (date, close) rows the
    download gives, [None] when it raises; dates are day numbers. *)
Definition get_closest_data (download : option (list (Z * float64)))
  (target_date : Z) : float64 :=
  match download with
  | None => NaN
  | Some df =>
      if (length df =? 0)%nat then NaN
      else
        let diff := map (fun row => Z.abs (fst row - target_date)) df in
        let closest_idx := argmin diff in
        snd (nth closest_idx df (0%Z, NaN))
  end.

(** The MACD block of [update_dashboard]. *)
Definition macd_line (close : series) : series :=
  let short_ema := ewm_mean (alpha_of_span 12) false 0 close in
  let long_ema := ewm_mean (alpha_of_span 26) false 0 close in
  zip_with fsub short_ema long_ema.

Definition macd_signal_line (close : series) : series :=
  ewm_mean (alpha_of_span 9) false 0 (macd_line close).

Definition macd_histogram (close : series) : series :=
  zip_with fsub (macd_line close) (macd_signal_line close).

Definition macd_message (close : series) : string :=
  if negb (length close =? 0)%nat && (26 <=? length close)%nat then
    let latest_macd := iloc_last (macd_line close) in
    let latest_signal := iloc_last (macd_signal_line close) in
    if isnan latest_macd || isnan latest_signal
    then "Datos insuficientes o valores NaN en el cálculo del MACD."%string
    else if fgt latest_macd latest_signal
    then "**Señal:** Alcista (MACD por encima de la línea de señal)"%string
    else "**Señal:** Bajista (MACD por debajo de la línea de señal)"%string
  else "No se encontraron datos históricos del cobre o la columna 'Close' no está disponible."%string.

(** Each close is below the one before. *)
Definition strictly_decreasing (qs : list Q) : Prop :=
  match qs with
  | [] => True
  | q0 :: rest => Forall (fun d => d < 0) (Qdiffs q0 rest)
  end.

(** The closes a + b * i for i = 0, ..., n-1. *)
Definition straight_line (a b : Q) (n : nat) : list Q :=
  map (fun x => a + b * x) (indices n).

Section ProjectionOfQuantity.

Variable np_sqrt : float64 -> float64.

(** The 4-month projection of [update_dashboard]: span 30, 80 trading
    days, then the three orders.  Each instrument comes with its history,
    its column of the merged table and its current price. *)
Definition projection
  (budget_eur copper_percentage transport_cost_factor : float64)
  (copper_hist oil_hist eur_cny_hist usd_cny_hist : series)
  (copper_col oil_col eur_cny_col usd_cny_col : series)
  (copper_price oil_price eur_cny_price usd_cny_price : float64)
  : float64 * float64 * float64 :=
  let span := 30%nat in
  let days_ahead := 80%nat in
  projected_quantities budget_eur copper_percentage transport_cost_factor
    (project_instrument np_sqrt copper_hist copper_col copper_price span days_ahead)
    (project_instrument np_sqrt oil_hist oil_col oil_price span days_ahead)
    (project_instrument np_sqrt eur_cny_hist eur_cny_col eur_cny_price span days_ahead)
    (project_instrument np_sqrt usd_cny_hist usd_cny_col usd_cny_price span days_ahead).

End ProjectionOfQuantity.

(** [new] is [old] with [x] pushed at the end of a buffer of 100: appended
    while there is room, replacing the oldest entry when the buffer is
    full. *)
Definition pushed {A : Type} (old : list A) (x : A) (new : list A) : Prop :=
  ((length old < 100)%nat -> new = old ++ [x]) /\
  (length old = 100%nat -> new = tl old ++ [x]).

(** Every table of an attempt has at least 30 rows. *)
Definition rows_ok (f : frames) : Prop :=
  let '(copper, oil, eur_cny, usd_cny) := f in
  (30 <= length copper)%nat /\ (30 <= length oil)%nat /\
  (30 <= length eur_cny)%nat /\ (30 <= length usd_cny)%nat.

(** ** Magnitudes and binary64 *)

(** A value of ordinary magnitude: zero, or between 1e-50 and 1e50 in
    absolute value.  On such inputs no product, quotient, sum or
    difference of the order calculator leaves the range of binary64, and
    no non-zero product rounds to zero. *)
Definition magnitude_lo : Q := 1 # (10 ^ 50).
Definition magnitude_hi : Q := inject_Z (10 ^ 50).

Definition ordinary (x : Q) : Prop :=
  Qeq_bool x 0
  || (Qle_bool magnitude_lo (Qabs x) && Qle_bool (Qabs x) magnitude_hi) = true.

Definition ordinary_value (x : float64) : Prop :=
  match x with Fin q => ordinary q | _ => True end.

(** [calculate_order] on IEEE binary64 (the primitive floats), line by
    line as in the source. *)
Module Binary64.

Definition of_Z (z : Z) : PrimFloat.float := PrimFloat.of_uint63 (Uint63.of_Z z).

(** The double a decimal literal n/d denotes: the correctly rounded
    quotient. *)
Definition decimal (n d : Z) : PrimFloat.float :=
  PrimFloat.div (of_Z n) (of_Z d).

Record OrderResult : Type := mkOrder {
  budget_cny : PrimFloat.float;
  copper_budget_cny : PrimFloat.float;
  other_budget_cny : PrimFloat.float;
  copper_quantity_lb : PrimFloat.float;
  copper_quantity_ton : PrimFloat.float;
  transport_cost_cny : PrimFloat.float;
  other_cost_cny : PrimFloat.float;
  total_order_cost_cny : PrimFloat.float;
  budget_status : PrimFloat.float
}.

Definition unavailable : OrderResult :=
  mkOrder PrimFloat.nan PrimFloat.nan PrimFloat.nan PrimFloat.nan PrimFloat.nan
          PrimFloat.nan PrimFloat.nan PrimFloat.nan PrimFloat.nan.

Definition calculate_order
  (budget_eur copper_pct transport_factor
   copper_price oil_price eur_cny_price usd_cny_price : PrimFloat.float)
  : OrderResult :=
  if existsb PrimFloat.is_nan
       [copper_price; oil_price; eur_cny_price; usd_cny_price]
  then unavailable
  else
    let budget_cny := PrimFloat.mul budget_eur eur_cny_price in
    let copper_budget_cny :=
      PrimFloat.mul budget_cny (PrimFloat.div copper_pct (of_Z 100)) in
    let other_budget_cny :=
      PrimFloat.mul budget_cny
        (PrimFloat.sub (of_Z 1) (PrimFloat.div copper_pct (of_Z 100))) in
    let copper_price_cny := PrimFloat.mul copper_price usd_cny_price in
    let oil_price_cny := PrimFloat.mul oil_price usd_cny_price in
    let copper_quantity_lb :=
      if negb (PrimFloat.eqb copper_price_cny (of_Z 0))
      then PrimFloat.div copper_budget_cny copper_price_cny
      else PrimFloat.nan in
    let copper_quantity_ton :=
      if negb (PrimFloat.is_nan copper_quantity_lb)
      then PrimFloat.mul copper_quantity_lb (decimal 453592 1000000000)
      else PrimFloat.nan in
    let transport_cost_cny :=
      if negb (PrimFloat.is_nan oil_price_cny)
      then PrimFloat.div (PrimFloat.mul oil_price_cny transport_factor) (of_Z 100)
      else of_Z 0 in
    let other_cost_cny :=
      if PrimFloat.leb transport_cost_cny other_budget_cny
      then PrimFloat.sub other_budget_cny transport_cost_cny
      else of_Z 0 in
    let total_order_cost_cny :=
      PrimFloat.add (PrimFloat.add copper_budget_cny transport_cost_cny)
        other_cost_cny in
    let budget_status := PrimFloat.sub budget_cny total_order_cost_cny in
    mkOrder budget_cny copper_budget_cny other_budget_cny copper_quantity_lb
            copper_quantity_ton transport_cost_cny other_cost_cny
            total_order_cost_cny budget_status.

End Binary64.

(** * Properties *)

(** ** Values *)

Lemma same_value_refl (x : float64) : x =f= x.
Proof. destruct x; simpl; auto with qarith. Qed.

Lemma same_value_sym (x y : float64) : x =f= y -> y =f= x.
Proof. destruct x, y; simpl; auto with qarith. Qed.

Lemma same_value_trans (x y z : float64) : x =f= y -> y =f= z -> x =f= z.
Proof.
  destruct x, y, z; simpl; try tauto.
  intros H1 H2. now rewrite H1.
Qed.

#[export] Instance same_value_equiv : Equivalence same_value.
Proof.
  split.
  - exact same_value_refl.
  - exact same_value_sym.
  - exact same_value_trans.
Qed.

Lemma same_valueb_spec (x y : float64) : same_valueb x y = true <-> x =f= y.
Proof.
  destruct x, y; simpl; try tauto; try (split; [discriminate | tauto]).
  apply Qeq_bool_iff.
Qed.

#[export] Instance fopp_proper : Proper (same_value ==> same_value) fopp.
Proof.
  intros [a| | |] [b| | |]; simpl; try tauto.
  intros H. now rewrite H.
Qed.

#[export] Instance fadd_proper :
  Proper (same_value ==> same_value ==> same_value) fadd.
Proof.
  intros [a| | |] [b| | |] H1 [c| | |] [d| | |] H2; simpl in *; try tauto.
  now rewrite H1, H2.
Qed.

#[export] Instance fsub_proper :
  Proper (same_value ==> same_value ==> same_value) fsub.
Proof.
  intros x x' Hx y y' Hy. unfold fsub. now rewrite Hx, Hy.
Qed.

#[export] Instance fmul_proper :
  Proper (same_value ==> same_value ==> same_value) fmul.
Proof.
  intros [a| | |] [b| | |] H1 [c| | |] [d| | |] H2; simpl in *; try tauto;
    try (rewrite H1; apply same_value_refl);
    try (rewrite H2; apply same_value_refl).
  now rewrite H1, H2.
Qed.

Lemma Qeq_bool_false (a b : Q) : ~ a == b -> Qeq_bool a b = false.
Proof.
  intros H. destruct (Qeq_bool a b) eqn:E; [|reflexivity].
  apply Qeq_bool_iff in E. contradiction.
Qed.

Lemma Qeq_bool_true (a b : Q) : a == b -> Qeq_bool a b = true.
Proof. apply Qeq_bool_iff. Qed.

Lemma fdiv_Fin (a b : Q) : ~ b == 0 -> (Fin a / Fin b)%F = Fin (a / b).
Proof. intros H. simpl. now rewrite Qeq_bool_false. Qed.

Lemma Qdiv_nonneg (a b : Q) : 0 <= a -> 0 < b -> 0 <= a / b.
Proof. intros Ha Hb. apply Qle_shift_div_l; [exact Hb | lra]. Qed.

Lemma Qdiv_pos (a b : Q) : 0 < a -> 0 < b -> 0 < a / b.
Proof. intros Ha Hb. apply Qlt_shift_div_l; [exact Hb | lra]. Qed.

(** ** OrderCalculator *)

(** Unfold an order on finite arguments down to rational comparisons. *)
Ltac float_cbn :=
  unfold fmin, clip_lower, clip_upper;
  cbn [existsb isnan orb negb fmul fadd fsub fopp fdiv fne fge fcompare
       clip_lower flt fmin is_finite inf_of_sign
       budget_cny copper_budget_cny other_budget_cny copper_quantity_lb
       copper_quantity_ton transport_cost_cny other_cost_cny
       total_order_cost_cny budget_status
       same_value at_least within below not_above fst snd].

Ltac order_unfold :=
  unfold projected_quantities, baseline_quantity, calculate_order, historical_order_row;
  float_cbn;
  change (Qeq_bool 100 0) with false; float_cbn.

Ltac compare_cases :=
  repeat (match goal with
    | |- context [Qeq_bool ?a ?b] =>
        let E := fresh "E" in
        destruct (Qeq_bool a b) eqn:E;
        [apply Qeq_bool_iff in E | apply Qeq_bool_neq in E]
    | |- context [Qcompare ?a ?b] => destruct (Qcompare_spec a b)
    end; float_cbn).

Ltac order_cases := order_unfold; compare_cases.

Example end_to_end :
  let r := calculate_order 100000 50 1 4.5 80 7.8 7.2 in
  forallb (fun p => same_valueb (fst p) (snd p))
    (combine (fields r)
       [Fin 780000; Fin 390000; Fin 390000; Fin (390000 / 32.4);
        Fin (390000 / 32.4 * lb_to_ton); Fin 5.76; Fin 389994.24;
        Fin 780000; Fin 0]) = true.
Proof. vm_compute. reflexivity. Qed.

(** C2. With the four prices available and [copper_price * usd_cny_price]
    non-zero, the order satisfies: copper budget + other budget = budget in
    CNY, total cost = copper budget + transport cost + other cost, and
    budget status = budget in CNY - total cost. *)
Theorem calculate_order_identities (b p t c o e u : Q) :
  ~ c * u == 0 ->
  let r := calculate_order b p t c o e u in
  (copper_budget_cny r + other_budget_cny r)%F =f= budget_cny r /\
  total_order_cost_cny r
    =f= (copper_budget_cny r + transport_cost_cny r + other_cost_cny r)%F /\
  budget_status r =f= (budget_cny r - total_order_cost_cny r)%F.
Proof.
  intros Hnz r. subst r.
  order_cases; repeat split; try lra.
Qed.

Lemma calculate_order_identities_witness :
  let r := calculate_order 100000 50 1 4.5 80 7.8 7.2 in
  (copper_budget_cny r + other_budget_cny r)%F =f= budget_cny r /\
  total_order_cost_cny r
    =f= (copper_budget_cny r + transport_cost_cny r + other_cost_cny r)%F /\
  budget_status r =f= (budget_cny r - total_order_cost_cny r)%F.
Proof.
  apply (calculate_order_identities 100000 50 1 4.5 80 7.8 7.2).
  vm_compute. discriminate.
Defined.

(** C10, in exact arithmetic.  With the four prices available and
    [copper_price * usd_cny_price] non-zero, the budget status computed
    without rounding is min(other budget - transport cost, 0): zero when
    the transport cost fits in the other budget, the negative difference
    when it does not, and never above zero.  On binary64 the status
    differs from this by the rounding of the operations before it; the
    evaluation on [Binary64.calculate_order] below shows a positive
    residue. *)
Theorem budget_status_is_clipped_deficit (b p t c o e u : Q) :
  ~ c * u == 0 ->
  let r := calculate_order b p t c o e u in
  budget_status r =f= fmin (other_budget_cny r - transport_cost_cny r)%F 0 /\
  (fge (other_budget_cny r) (transport_cost_cny r) = true ->
   budget_status r =f= 0) /\
  (fge (other_budget_cny r) (transport_cost_cny r) = false ->
   budget_status r =f= (other_budget_cny r - transport_cost_cny r)%F /\
   below (budget_status r) 0) /\
  not_above (budget_status r) 0.
Proof.
  intros Hnz r. subst r.
  order_cases; repeat split; intros; try discriminate; try lra.
Qed.

Lemma budget_status_is_clipped_deficit_witness :
  budget_status (calculate_order 100000 50 1 4.5 80 7.8 7.2) =f= 0 /\
  below (budget_status (calculate_order 1000 100 10 4.5 80 7.8 7.2)) 0.
Proof.
  split.
  - apply (budget_status_is_clipped_deficit 100000 50 1 4.5 80 7.8 7.2).
    + vm_compute. discriminate.
    + vm_compute. reflexivity.
  - apply (budget_status_is_clipped_deficit 1000 100 10 4.5 80 7.8 7.2).
    + vm_compute. discriminate.
    + vm_compute. reflexivity.
Defined.

(** C10 as stated fails on the floats of the code: at budget 50000, share
    80 %, transport factor 10, copper 4.5, oil 80, EUR/CNY 7.8 and USD/CNY
    7.2 the transport cost (57.6) fits in the other budget
    (77999.99999999999), yet the budget status is 2^-34, about 5.8e-11,
    strictly above zero. *)
Lemma budget_status_positive_on_binary64 :
  let r := Binary64.calculate_order
             (Binary64.of_Z 50000) (Binary64.of_Z 80) (Binary64.of_Z 10)
             (Binary64.decimal 45 10) (Binary64.of_Z 80)
             (Binary64.decimal 78 10) (Binary64.decimal 72 10) in
  PrimFloat.leb (Binary64.transport_cost_cny r) (Binary64.other_budget_cny r)
  = true /\
  PrimFloat.ltb (Binary64.of_Z 0) (Binary64.budget_status r) = true /\
  PrimFloat.eqb (Binary64.budget_status r)
    (PrimFloat.div (Binary64.of_Z 1) (Binary64.of_Z 17179869184)) = true.
Proof. cbv zeta. repeat split; vm_compute; reflexivity. Qed.

(** C1, as the code has it.  For a budget, percentages and prices of
    ordinary magnitude, the prices being numbers or NaN: if any of the four
    prices is NaN, the order is the nine-NaN result.  If all four are
    numbers, the seven budget and cost values are computed numbers; the two
    quantities are NaN when [copper_price * usd_cny_price] is zero and
    computed numbers when it is not.  (Beyond ordinary magnitudes binary64
    overflows: see [calculate_order_overflows_on_binary64].) *)
Theorem calculate_order_availability (b p t : Q) (c o e u : float64) :
  ordinary b -> ordinary p -> ordinary t ->
  is_price c -> is_price o -> is_price e -> is_price u ->
  ordinary_value c -> ordinary_value o -> ordinary_value e ->
  ordinary_value u ->
  let r := calculate_order b p t c o e u in
  (existsb isnan [c; o; e; u] = true -> r = unavailable) /\
  (existsb isnan [c; o; e; u] = false ->
   forallb is_finite
     [budget_cny r; copper_budget_cny r; other_budget_cny r;
      transport_cost_cny r; other_cost_cny r; total_order_cost_cny r;
      budget_status r] = true /\
   ((c * u)%F =f= 0 ->
    copper_quantity_lb r = NaN /\ copper_quantity_ton r = NaN) /\
   (~ (c * u)%F =f= 0 ->
    is_finite (copper_quantity_lb r) = true /\
    is_finite (copper_quantity_ton r) = true)).
Proof.
  intros _ _ _ Hc Ho He Hu _ _ _ _ r. subst r. split.
  - intros Hnan. unfold calculate_order. now rewrite Hnan.
  - destruct c as [c| | |], o as [o| | |], e as [e| | |], u as [u| | |];
      try contradiction; try discriminate.
    intros _. order_cases; cbn [forallb is_finite andb];
      repeat split; intros; try reflexivity; try contradiction; try lra.
Qed.

Lemma calculate_order_availability_witness :
  is_finite (copper_quantity_ton (calculate_order 100000 50 1 4.5 80 7.8 7.2)) = true /\
  calculate_order 100000 50 1 NaN 80 7.8 7.2 = unavailable.
Proof.
  split.
  - apply (calculate_order_availability 100000 50 1 4.5 80 7.8 7.2);
      try exact I; try (vm_compute; reflexivity).
    vm_compute. discriminate.
  - apply (calculate_order_availability 100000 50 1 NaN 80 7.8 7.2);
      try exact I; try (vm_compute; reflexivity).
Defined.

(** Why the magnitudes are bounded: with a budget of 10^308 euros (the
    budget input has no upper limit) and every price available, binary64
    overflows; the budget in CNY is infinite and the budget status is
    NaN. *)
Lemma calculate_order_overflows_on_binary64 :
  let huge := Nat.iter 308 (PrimFloat.mul (Binary64.of_Z 10)) (Binary64.of_Z 1) in
  let r := Binary64.calculate_order huge
             (Binary64.of_Z 50) (Binary64.of_Z 1)
             (Binary64.decimal 45 10) (Binary64.of_Z 80)
             (Binary64.decimal 78 10) (Binary64.decimal 72 10) in
  PrimFloat.ltb huge PrimFloat.infinity = true /\
  PrimFloat.eqb (Binary64.budget_cny r) PrimFloat.infinity = true /\
  PrimFloat.is_nan (Binary64.budget_status r) = true.
Proof. cbv zeta. repeat split; vm_compute; reflexivity. Qed.

(** C1 as stated fails: with every price available and a copper price of
    zero the product [copper_price * usd_cny_price] is zero, yet the result
    is not the nine-NaN result; only its two quantities are NaN. *)
Lemma calculate_order_zero_price_is_partial :
  let r := calculate_order 100000 50 1 0 80 7.8 7.2 in
  (Fin 0 * Fin 7.2)%F =f= 0 /\
  r <> unavailable /\
  is_unavailable r = false /\
  budget_cny r =f= 780000 /\
  copper_quantity_lb r = NaN.
Proof.
  cbv zeta. repeat split; try (vm_compute; reflexivity).
  vm_compute. discriminate.
Qed.

(** C5, as the code has it.  For a positive budget, percentages in
    [0,100] and non-negative prices, the transport cost, the other cost and
    the total cost are non-negative, and so are the two quantities whenever
    [copper_price * usd_cny_price] is non-zero. *)
Theorem calculate_order_nonnegative (b p t c o e u : Q) :
  0 < b -> 0 <= p <= 100 -> 0 <= t <= 100 ->
  0 <= c -> 0 <= o -> 0 <= e -> 0 <= u ->
  let r := calculate_order b p t c o e u in
  at_least 0 (transport_cost_cny r) /\
  at_least 0 (other_cost_cny r) /\
  at_least 0 (total_order_cost_cny r) /\
  (~ c * u == 0 ->
   at_least 0 (copper_quantity_lb r) /\ at_least 0 (copper_quantity_ton r)).
Proof.
  intros Hb [Hp0 Hp1] [Ht0 Ht1] Hc Ho He Hu r. subst r.
  assert (Hbe : 0 <= b * e) by (apply Qmult_le_0_compat; lra).
  assert (Hcb : 0 <= b * e * (p / 100))
    by (apply Qmult_le_0_compat; [lra | apply Qdiv_nonneg; lra]).
  assert (Hou : 0 <= o * u) by (apply Qmult_le_0_compat; lra).
  assert (Htc : 0 <= o * u * t / 100)
    by (apply Qdiv_nonneg; [apply Qmult_le_0_compat; lra | lra]).
  assert (Hcu : 0 <= c * u) by (apply Qmult_le_0_compat; lra).
  order_cases; repeat split; intros; try lra; try contradiction.
  all: try (apply Qmult_le_0_compat; [|unfold lb_to_ton; lra]).
  all: apply Qdiv_nonneg; lra.
Qed.

Lemma calculate_order_nonnegative_witness :
  at_least 0 (copper_quantity_ton (calculate_order 100000 50 1 4.5 80 7.8 7.2)).
Proof.
  apply (calculate_order_nonnegative 100000 50 1 4.5 80 7.8 7.2);
    try split; try (vm_compute; discriminate); vm_compute; reflexivity.
Defined.

(** C5 as stated fails: a negative copper price is an available float, the
    result is not unavailable, and the quantities are negative. *)
Lemma calculate_order_negative_price :
  let r := calculate_order 100000 50 1 (-4.5) 80 7.8 7.2 in
  is_unavailable r = false /\
  below (copper_quantity_lb r) 0 /\
  below (copper_quantity_ton r) 0.
Proof. cbv zeta. repeat split; vm_compute; reflexivity. Qed.

Lemma Qdiv_le_mono (a a' d d' : Q) :
  0 <= a -> a <= a' -> 0 < d' -> d' <= d -> a / d <= a' / d'.
Proof.
  intros Ha Haa Hd' Hdd.
  assert (Hq : 0 <= a' / d') by (apply Qdiv_nonneg; lra).
  apply Qle_shift_div_r; [lra|].
  assert (E : a' / d' * d' == a') by (field; lra).
  pose proof (Qmult_le_compat_r d' d (a' / d') Hdd Hq) as M.
  lra.
Qed.

Lemma Qdiv_lt_denominator (a d d' : Q) :
  0 < a -> 0 < d -> d < d' -> a / d' < a / d.
Proof.
  intros Ha Hd Hdd.
  assert (Hq : 0 < a / d) by (apply Qdiv_pos; lra).
  apply Qlt_shift_div_r; [lra|].
  assert (E : a / d * d == a) by (field; lra).
  pose proof (Qmult_lt_compat_r d d' (a / d) Hq Hdd) as M.
  lra.
Qed.


(** ** SensitivityAnalyzer and the projected scenarios *)

(** C9. The quantities of an order do not depend on a finite oil price;
    so the scenarios "Petróleo +5%" and "Petróleo -5%" of the sensitivity
    grid record exactly the baseline quantity. *)
Theorem quantity_independent_of_oil (b p t c e u : float64) (o o' : Q) :
  copper_quantity_lb (calculate_order b p t c o e u)
    = copper_quantity_lb (calculate_order b p t c o' e u) /\
  copper_quantity_ton (calculate_order b p t c o e u)
    = copper_quantity_ton (calculate_order b p t c o' e u) /\
  lookup "Petróleo +5%" (sensitivity_results b p t c o e u)
    = Some (baseline_quantity b p t c o e u) /\
  lookup "Petróleo -5%" (sensitivity_results b p t c o e u)
    = Some (baseline_quantity b p t c o e u).
Proof.
  unfold sensitivity_results, variations, baseline_quantity.
  cbn [map lookup].
  repeat match goal with
    | |- context [String.eqb ?a ?b] =>
        let v := eval vm_compute in (String.eqb a b) in
        change (String.eqb a b) with v
    end.
  cbn iota. unfold calculate_order.
  cbn [existsb isnan orb fmul].
  destruct (isnan c), (isnan e), (isnan u); repeat split; reflexivity.
Qed.

(** C8, as the code has it.  For a positive budget, a positive copper
    share and positive prices, the scenario "Cobre +5%" records a strictly
    lower quantity than the baseline order, and "Cobre -5%" a strictly
    higher one. *)
Theorem copper_price_sensitivity (b p t c o e u : Q) :
  0 < b -> 0 < p -> 0 < c -> 0 < o -> 0 < e -> 0 < u ->
  exists up down : float64,
    lookup "Cobre +5%" (sensitivity_results b p t c o e u) = Some up /\
    lookup "Cobre -5%" (sensitivity_results b p t c o e u) = Some down /\
    below up (baseline_quantity b p t c o e u) /\
    below (baseline_quantity b p t c o e u) down.
Proof.
  intros Hb Hp Hc Ho He Hu.
  unfold sensitivity_results, variations.
  cbn [map lookup].
  repeat match goal with
    | |- context [String.eqb ?a ?b] =>
        let v := eval vm_compute in (String.eqb a b) in
        change (String.eqb a b) with v
    end.
  cbn iota. do 2 eexists. split; [reflexivity|]. split; [reflexivity|].
  assert (Hcu : 0 < c * u) by (apply Qmult_lt_0_compat; assumption).
  assert (Hbe : 0 < b * e) by (apply Qmult_lt_0_compat; assumption).
  assert (Hn : 0 < b * e * (p / 100))
    by (apply Qmult_lt_0_compat; [lra | apply Qdiv_pos; lra]).
  assert (Hk : 0 < lb_to_ton) by reflexivity.
  order_cases; try lra; split; apply Qmult_lt_compat_r; try exact Hk;
    apply Qdiv_lt_denominator; lra.
Qed.

Lemma copper_price_sensitivity_witness :
  exists up down : float64,
    lookup "Cobre +5%" (sensitivity_results 100000 50 1 4.5 80 7.8 7.2) = Some up /\
    lookup "Cobre -5%" (sensitivity_results 100000 50 1 4.5 80 7.8 7.2) = Some down /\
    below up (baseline_quantity 100000 50 1 4.5 80 7.8 7.2) /\
    below (baseline_quantity 100000 50 1 4.5 80 7.8 7.2) down.
Proof.
  apply (copper_price_sensitivity 100000 50 1 4.5 80 7.8 7.2);
    vm_compute; reflexivity.
Defined.

(** C8 as stated fails: with a copper share of 0 % (the slider allows it)
    every scenario buys no copper, and "Cobre +5%" is not strictly below
    the baseline. *)
Lemma copper_price_sensitivity_zero_share :
  exists up : float64,
    lookup "Cobre +5%" (sensitivity_results 100000 0 1 4.5 80 7.8 7.2) = Some up /\
    up =f= baseline_quantity 100000 0 1 4.5 80 7.8 7.2 /\
    ~ below up (baseline_quantity 100000 0 1 4.5 80 7.8 7.2).
Proof.
  eexists. split; [reflexivity|]. split.
  - vm_compute. reflexivity.
  - vm_compute. intros H. discriminate H.
Qed.

(** C3. The projection prices three orders.  The "Max" order takes the
    minimum copper price, the minimum oil price, the maximum EUR/CNY rate
    and the minimum USD/CNY rate; the "Min" order takes the opposite bound
    of each.  When every instrument's bounds are positive with
    lower <= expected <= upper, the quantities are ordered:
    Max >= expected >= Min. *)
Theorem projected_quantities_ordered
  (b p t : Q)
  (c c_min c_max o o_min o_max e e_min e_max u u_min u_max : Q) :
  0 < b -> 0 <= p <= 100 ->
  0 < c_min -> c_min <= c -> c <= c_max ->
  0 < o_min -> o_min <= o -> o <= o_max ->
  0 < e_min -> e_min <= e -> e <= e_max ->
  0 < u_min -> u_min <= u -> u <= u_max ->
  let '(q_future, q_min, q_max) :=
    projected_quantities b p t
      (Fin c, Fin c_min, Fin c_max) (Fin o, Fin o_min, Fin o_max)
      (Fin e, Fin e_min, Fin e_max) (Fin u, Fin u_min, Fin u_max) in
  q_future = copper_quantity_ton (calculate_order b p t c o e u) /\
  q_min = copper_quantity_ton (calculate_order b p t c_max o_max e_min u_max) /\
  q_max = copper_quantity_ton (calculate_order b p t c_min o_min e_max u_min) /\
  not_above q_min q_future /\
  not_above q_future q_max.
Proof.
  intros Hb [Hp0 Hp1] Hc0 Hc1 Hc2 Ho0 Ho1 Ho2 He0 He1 He2 Hu0 Hu1 Hu2.
  unfold projected_quantities.
  split; [reflexivity|]. split; [reflexivity|]. split; [reflexivity|].
  assert (Hk : 0 <= lb_to_ton) by (unfold lb_to_ton; lra).
  assert (Hs : 0 <= p / 100) by (apply Qdiv_nonneg; lra).
  assert (Hcu0 : 0 < c_min * u_min) by (apply Qmult_lt_0_compat; lra).
  assert (Hcu1 : c_min * u_min <= c * u)
    by (apply Qmult_le_compat_nonneg; split; lra).
  assert (Hcu2 : c * u <= c_max * u_max)
    by (apply Qmult_le_compat_nonneg; split; lra).
  assert (Hbe0 : 0 <= b * e_min) by (apply Qmult_le_0_compat; lra).
  assert (Hbe1 : b * e_min <= b * e)
    by (apply Qmult_le_compat_nonneg; split; lra).
  assert (Hbe2 : b * e <= b * e_max)
    by (apply Qmult_le_compat_nonneg; split; lra).
  assert (Hn0 : 0 <= b * e_min * (p / 100))
    by (apply Qmult_le_0_compat; lra).
  assert (Hn1 : b * e_min * (p / 100) <= b * e * (p / 100))
    by (apply Qmult_le_compat_r; lra).
  assert (Hn2 : b * e * (p / 100) <= b * e_max * (p / 100))
    by (apply Qmult_le_compat_r; lra).
  order_cases; try lra; split; apply Qmult_le_compat_r; try exact Hk;
    apply Qdiv_le_mono; lra.
Qed.

Lemma projected_quantities_ordered_witness :
  let '(q_future, q_min, q_max) :=
    projected_quantities 100000 50 1
      (Fin 4.5, Fin 4, Fin 5) (Fin 80, Fin 70, Fin 90)
      (Fin 7.8, Fin 7.5, Fin 8) (Fin 7.2, Fin 7, Fin 7.4) in
  q_future = copper_quantity_ton (calculate_order 100000 50 1 4.5 80 7.8 7.2) /\
  q_min = copper_quantity_ton (calculate_order 100000 50 1 5 90 7.5 7.4) /\
  q_max = copper_quantity_ton (calculate_order 100000 50 1 4 70 8 7) /\
  not_above q_min q_future /\
  not_above q_future q_max.
Proof.
  apply (projected_quantities_ordered 100000 50 1
           4.5 4 5 80 70 90 7.8 7.5 8 7.2 7 7.4);
    try split; try (vm_compute; reflexivity); vm_compute; discriminate.
Defined.

(** ** Sums and means of finite series *)

Lemma fold_left_fadd_Fin (l : list Q) (a : Q) :
  fold_left fadd (map Fin l) (Fin a) = Fin (fold_left Qplus l a).
Proof.
  revert a. induction l as [|x l IH]; intros a; simpl; [reflexivity|].
  apply IH.
Qed.

Lemma fold_left_Qplus (l : list Q) (a : Q) :
  fold_left Qplus l a == a + Qsum l.
Proof.
  revert a. induction l as [|x l IH]; intros a; simpl; [lra|].
  rewrite IH. lra.
Qed.

Lemma fsum_Fin (l : list Q) : fsum (map Fin l) =f= Fin (Qsum l).
Proof.
  unfold fsum. rewrite fold_left_fadd_Fin. simpl.
  rewrite fold_left_Qplus. lra.
Qed.

Lemma Qsum_ext (A : Type) (f g : A -> Q) (l : list A) :
  (forall x, f x == g x) -> Qsum (map f l) == Qsum (map g l).
Proof.
  intros H. induction l as [|x l IH]; simpl; [reflexivity|].
  now rewrite H, IH.
Qed.

Lemma Qsum_nonneg (l : list Q) : Forall (fun x => 0 <= x) l -> 0 <= Qsum l.
Proof.
  induction 1 as [|x l Hx _ IH]; simpl; lra.
Qed.

Lemma inject_nat_nonneg (n : nat) : 0 <= inject_Z (Z.of_nat n).
Proof.
  change 0 with (inject_Z 0). rewrite <- Zle_Qle. lia.
Qed.

Lemma inject_nat_pos (n : nat) : (1 <= n)%nat -> 0 < inject_Z (Z.of_nat n).
Proof.
  intros H. change 0 with (inject_Z 0). rewrite <- Zlt_Qlt. lia.
Qed.

Lemma fmean_Fin (l : list Q) :
  (1 <= length l)%nat -> fmean (map Fin l) =f= Fin (Qmean l).
Proof.
  intros Hn. unfold fmean, Qmean, of_nat, fsum.
  rewrite fold_left_fadd_Fin, length_map.
  pose proof (inject_nat_pos _ Hn) as Hpos.
  rewrite fdiv_Fin by lra. simpl.
  rewrite fold_left_Qplus. field. lra.
Qed.

Lemma fmean_Fin_exists (l : list Q) :
  (1 <= length l)%nat -> exists m, fmean (map Fin l) = Fin m /\ m == Qmean l.
Proof.
  intros Hn. pose proof (fmean_Fin l Hn) as H.
  destruct (fmean (map Fin l)) as [m| | |]; simpl in H; try contradiction.
  now exists m.
Qed.

(** ** Trend *)

Lemma arange_indices (n : nat) : arange n = map Fin (indices n).
Proof. unfold arange, indices. now rewrite map_map. Qed.

Lemma length_indices (n : nat) : length (indices n) = n.
Proof. unfold indices. now rewrite length_map, length_seq. Qed.

Lemma zip_with_Fin (f : float64 -> float64 -> float64) (g : Q -> Q -> Q)
  (xs ys : list Q) :
  (forall a b, f (Fin a) (Fin b) = Fin (g a b)) ->
  zip_with f (map Fin xs) (map Fin ys)
  = map Fin (map (fun xy => g (fst xy) (snd xy)) (combine xs ys)).
Proof.
  intros H. revert ys. induction xs as [|x xs IH]; intros [|y ys]; simpl;
    try reflexivity.
  now rewrite H, IH.
Qed.

Lemma indices_nonneg (n : nat) : Forall (fun x => 0 <= x) (indices n).
Proof.
  unfold indices. apply Forall_forall. intros x Hx.
  apply in_map_iff in Hx. destruct Hx as [i [<- _]].
  apply inject_nat_nonneg.
Qed.

Lemma Qmean_indices_pos (n : nat) : (2 <= n)%nat -> 0 < Qmean (indices n).
Proof.
  intros Hn. unfold Qmean. rewrite length_indices.
  apply Qdiv_pos; [|apply inject_nat_pos; lia].
  destruct n as [|[|n]]; try lia.
  unfold indices. cbn [seq map Qsum fold_right].
  assert (H : 0 <= Qsum (map (fun i => inject_Z (Z.of_nat i)) (seq 2 n))).
  { apply Qsum_nonneg, Forall_forall. intros x Hx.
    apply in_map_iff in Hx. destruct Hx as [i [<- _]].
    apply inject_nat_nonneg. }
  unfold Qsum in H.
  change (inject_Z (Z.of_nat 0)) with 0.
  change (inject_Z (Z.of_nat 1)) with 1. lra.
Qed.

Lemma Qsquare_nonneg (a : Q) : 0 <= a * a.
Proof.
  destruct (Qlt_le_dec a 0) as [H|H].
  - assert (E : a * a == (- a) * (- a)) by ring.
    rewrite E. apply Qmult_le_0_compat; lra.
  - apply Qmult_le_0_compat; assumption.
Qed.

Lemma Qsquare_pos (a : Q) : ~ a == 0 -> 0 < a * a.
Proof.
  intros Ha. destruct (Qlt_le_dec a 0) as [H|H].
  - assert (E : a * a == (- a) * (- a)) by ring.
    rewrite E. apply Qmult_lt_0_compat; lra.
  - apply Qmult_lt_0_compat; lra.
Qed.

Lemma squares_sum_pos (m : Q) (n : nat) :
  (1 <= n)%nat -> ~ m == 0 ->
  0 < Qsum (map (fun x => (x - m) * (x - m)) (indices n)).
Proof.
  intros Hn Hm. destruct n as [|n]; [lia|].
  unfold indices. cbn [seq map Qsum fold_right].
  assert (H : 0 <= Qsum (map (fun x => (x - m) * (x - m))
                           (map (fun i => inject_Z (Z.of_nat i)) (seq 1 n)))).
  { apply Qsum_nonneg, Forall_forall. intros x Hx.
    apply in_map_iff in Hx. destruct Hx as [y [<- _]].
    apply Qsquare_nonneg. }
  unfold Qsum in H.
  change (inject_Z (Z.of_nat 0)) with 0.
  assert (0 < (0 - m) * (0 - m)) by (apply Qsquare_pos; lra).
  lra.
Qed.

(** On at least two finite closes the slope of [linregress] is the least
    squares slope. *)
Lemma linregress_slope_ols (ys : list Q) :
  (2 <= length ys)%nat ->
  linregress_slope (arange (length ys)) (map Fin ys) =f= Fin (ols_slope ys).
Proof.
  intros Hn. unfold linregress_slope, ols_slope.
  rewrite arange_indices.
  set (xs := indices (length ys)).
  assert (Hlx : length xs = length ys) by apply length_indices.
  destruct (fmean_Fin_exists xs) as [mx [Ex Hmx]]; [lia|].
  destruct (fmean_Fin_exists ys) as [my [Ey Hmy]]; [lia|].
  rewrite Ex, Ey.
  rewrite map_map.
  rewrite (map_ext (fun a : Q => ((a - mx) * (a - mx))%F)
             (fun a => Fin ((a - mx) * (a - mx)))) by reflexivity.
  rewrite <- (map_map (fun a => (a - mx) * (a - mx)) Fin).
  rewrite (zip_with_Fin _ (fun a b => (a - mx) * (b - my))) by reflexivity.
  destruct (fmean_Fin_exists (map (fun a => (a - mx) * (a - mx)) xs))
    as [vx [Evx Hvx]]; [rewrite length_map; lia|].
  destruct (fmean_Fin_exists
              (map (fun xy => (fst xy - mx) * (snd xy - my)) (combine xs ys)))
    as [vxy [Evxy Hvxy]];
    [rewrite length_map, length_combine; lia|].
  rewrite Evx, Evxy.
  unfold Qmean in Hvx, Hvxy.
  rewrite length_map in Hvx. rewrite length_map, length_combine, Hlx, Nat.min_id in Hvxy.
  rewrite Hlx in Hvx.
  pose proof (inject_nat_pos (length ys) ltac:(lia)) as Hpos.
  assert (Hmx0 : ~ mx == 0).
  { rewrite Hmx. pose proof (Qmean_indices_pos (length ys) Hn). fold xs in H. lra. }
  pose proof (squares_sum_pos mx (length ys) ltac:(lia) Hmx0) as Hsq.
  fold xs in Hsq.
  assert (Hvx0 : 0 < vx) by (rewrite Hvx; apply Qdiv_pos; assumption).
  rewrite fdiv_Fin by lra. simpl.
  rewrite Hvx, Hvxy.
  rewrite (Qsum_ext _ (fun xy => (fst xy - Qmean xs) * (snd xy - Qmean ys))
             (fun xy => (fst xy - mx) * (snd xy - my)))
    by (intros; now rewrite Hmx, Hmy).
  rewrite (Qsum_ext _ (fun x => (x - Qmean xs) * (x - Qmean xs))
             (fun x => (x - mx) * (x - mx)))
    by (intros; now rewrite Hmx).
  field. split; lra.
Qed.

Lemma tail_Fin (n : nat) (qs : list Q) :
  tail n (map Fin qs) = map Fin (lastn n qs).
Proof. unfold tail, lastn. now rewrite length_map, skipn_map. Qed.

Lemma length_lastn (A : Type) (n : nat) (l : list A) :
  (n <= length l)%nat -> length (lastn n l) = n.
Proof. intros H. unfold lastn. rewrite length_skipn. lia. Qed.

(** C7, as the code has it.  [calculate_trend] is indeterminate whenever
    the series has fewer than [period] closes, also when it has two or
    more.  With at least [period] finite closes it fits ordinary least
    squares over the last [period] of them and labels the slope "Alcista"
    when it is positive and "Bajista" otherwise. *)
Theorem calculate_trend_window (qs : list Q) (period : nat) :
  (2 <= period)%nat ->
  let r := calculate_trend (map Fin qs) period in
  ((length qs < period)%nat -> r = (NaN, "Indeterminada"%string)) /\
  ((period <= length qs)%nat ->
   fst r =f= Fin (ols_slope (lastn period qs)) /\
   (0 < ols_slope (lastn period qs) -> snd r = "Alcista"%string) /\
   (ols_slope (lastn period qs) <= 0 -> snd r = "Bajista"%string)).
Proof.
  intros Hp r. subst r. unfold calculate_trend. rewrite length_map. split.
  - intros Hlt. apply Nat.ltb_lt in Hlt. rewrite Hlt.
    now rewrite orb_true_r.
  - intros Hle.
    assert (E0 : (length qs =? 0)%nat = false) by (apply Nat.eqb_neq; lia).
    assert (E1 : (length qs <? period)%nat = false) by (apply Nat.ltb_ge; lia).
    rewrite E0, E1. cbn [orb fst snd].
    rewrite tail_Fin, length_map.
    pose proof (length_lastn Q period qs Hle) as Hl.
    pose proof (linregress_slope_ols (lastn period qs) ltac:(lia)) as Hs.
    destruct (linregress_slope _ _) as [s| | |]; simpl in Hs; try contradiction.
    split; [exact Hs|].
    unfold fgt, fcompare.
    destruct (Qcompare_spec s 0); split; intros; try reflexivity; lra.
Qed.

Lemma calculate_trend_window_witness :
  fst (calculate_trend (map Fin [5; 4; 4; 6; 7]) 3)
    =f= Fin (ols_slope (lastn 3 [5; 4; 4; 6; 7])) /\
  calculate_trend (map Fin [5; 4]) 3 = (NaN, "Indeterminada"%string).
Proof.
  split.
  - apply (calculate_trend_window [5; 4; 4; 6; 7] 3); simpl; lia.
  - apply (calculate_trend_window [5; 4] 3); simpl; lia.
Defined.

(** C7 as stated fails: five closes are at least two, yet with the window
    of 30 the trend is indeterminate, while a least squares fit over the
    five closes exists (slope 1). *)
Lemma calculate_trend_short_series :
  calculate_trend (map Fin [1; 2; 3; 4; 5]) 30 = (NaN, "Indeterminada"%string) /\
  ols_slope [1; 2; 3; 4; 5] == 1.
Proof. split; vm_compute; reflexivity. Qed.

(** ** RSI *)

Lemma last_cons_nonempty (A : Type) (x d : A) (l : list A) :
  l <> [] -> last (x :: l) d = last l d.
Proof. destruct l; [contradiction | reflexivity]. Qed.

Lemma last_map_default (A B : Type) (f : A -> B) (l : list A) (d : A) :
  last (map f l) (f d) = f (last l d).
Proof.
  induction l as [|x l IH]; [reflexivity|].
  destruct l as [|y l]; [reflexivity|]. exact IH.
Qed.

Lemma last_zip_with (f : float64 -> float64 -> float64) (a b : series)
  (da db : float64) :
  length a = length b ->
  last (zip_with f a b) (f da db) = f (last a da) (last b db).
Proof.
  revert b. induction a as [|x a IH]; intros [|y b] H; try discriminate;
    [reflexivity|].
  injection H as H. specialize (IH b H).
  destruct a as [|x' a], b as [|y' b]; try discriminate; [reflexivity|].
  exact IH.
Qed.

Lemma length_ewm_scan alpha adjust minp acc vals :
  length (ewm_scan alpha adjust minp acc vals) = length vals.
Proof.
  revert acc. induction vals as [|v vals IH]; intros acc; simpl;
    [reflexivity|]. now rewrite IH.
Qed.

Lemma length_ewm_mean alpha adjust minp vals :
  length (ewm_mean alpha adjust minp vals) = length vals.
Proof.
  destruct vals; simpl; [reflexivity|]. now rewrite length_ewm_scan.
Qed.

Lemma last_ewm_scan alpha adjust minp acc vals d :
  vals <> [] ->
  last (ewm_scan alpha adjust minp acc vals) d
  = ewm_out minp (ewm_run alpha adjust acc vals).
Proof.
  revert acc. induction vals as [|v vals IH]; intros acc H; [contradiction|].
  destruct vals as [|v' vals]; [reflexivity|].
  change (ewm_scan alpha adjust minp acc (v :: v' :: vals))
    with (ewm_out minp (ewm_step alpha adjust acc v)
          :: ewm_scan alpha adjust minp (ewm_step alpha adjust acc v) (v' :: vals)).
  rewrite last_cons_nonempty by discriminate.
  rewrite IH by discriminate. reflexivity.
Qed.

Lemma diff_from_Fin (prev : Q) (l : list Q) :
  diff_from (Fin prev) (map Fin l) = map Fin (Qdiffs prev l).
Proof.
  revert prev. induction l as [|x l IH]; intros prev; simpl; [reflexivity|].
  now rewrite IH.
Qed.

Lemma clip_lower_Fin (d : Q) : clip_lower 0 (Fin d) = Fin (gain_of d).
Proof.
  unfold clip_lower, gain_of, flt, fcompare. now destruct (d ?= 0).
Qed.

Lemma clip_upper_Fin (d : Q) : (- clip_upper 0 (Fin d))%F = Fin (loss_of d).
Proof.
  unfold clip_upper, loss_of, fgt, fcompare. now destruct (d ?= 0).
Qed.

Lemma gain_of_nonneg (d : Q) : 0 <= gain_of d.
Proof. unfold gain_of. destruct (Qcompare_spec d 0); lra. Qed.

Lemma loss_of_nonneg (d : Q) : 0 <= loss_of d.
Proof. unfold loss_of. destruct (Qcompare_spec d 0); lra. Qed.

(** One row of the adjusted mean keeps a property that averages keep. *)
Lemma ewm_step_holds (P : Q -> Prop) (alpha : Q) (acc : ewm_acc) (x : Q) :
  closed_under_average P ->
  0 <= 1 - alpha ->
  acc_holds P acc -> P x ->
  acc_holds P (ewm_step alpha true acc (Fin x)) /\
  nobs (ewm_step alpha true acc (Fin x)) = S (nobs acc).
Proof.
  intros Hc Ha [w [Ew [Pw Hwt]]] Px.
  unfold ewm_step. rewrite Ew. cbn [isnan negb].
  assert (H0 : 0 <= old_wt acc * (1 - alpha))
    by (apply Qmult_le_0_compat; lra).
  split; [|cbn [nobs]; lia].
  exists (if fne (Fin w) (Fin x)
          then (old_wt acc * (1 - alpha) * w + 1 * x)
               / (old_wt acc * (1 - alpha) + 1)
          else w).
  cbn [weighted old_wt]. split; [|split].
  - destruct (fne (Fin w) (Fin x)); [|reflexivity].
    cbn [fmul fadd]. apply fdiv_Fin. lra.
  - destruct (fne (Fin w) (Fin x)); [|exact Pw].
    apply Hc; assumption.
  - lra.
Qed.

Lemma ewm_run_holds (P : Q -> Prop) (alpha : Q) (xs : list Q) (acc : ewm_acc) :
  closed_under_average P ->
  0 <= 1 - alpha ->
  acc_holds P acc -> Forall P xs ->
  acc_holds P (ewm_run alpha true acc (map Fin xs)) /\
  nobs (ewm_run alpha true acc (map Fin xs)) = (nobs acc + length xs)%nat.
Proof.
  intros Hc Ha Hacc Hxs. revert acc Hacc.
  induction Hxs as [|x xs Px _ IH]; intros acc Hacc.
  - split; [exact Hacc | simpl; lia].
  - destruct (ewm_step_holds P alpha acc x Hc Ha Hacc Px) as [H1 H2].
    destruct (IH _ H1) as [H3 H4].
    unfold ewm_run in *. cbn [map fold_left length]. split; [exact H3|].
    rewrite H4, H2. lia.
Qed.

Lemma nonneg_closed : closed_under_average (fun w => 0 <= w).
Proof.
  intros a w x Ha Hw Hx.
  pose proof (Qmult_le_0_compat a w Ha Hw).
  apply Qdiv_nonneg; lra.
Qed.

Lemma zero_closed : closed_under_average (fun w => w == 0).
Proof.
  intros a w x Ha Hw Hx. rewrite Hw, Hx. field. lra.
Qed.

Lemma positive_closed : closed_under_average (fun w => 0 < w).
Proof.
  intros a w x Ha Hw Hx.
  assert (0 <= a * w) by (apply Qmult_le_0_compat; lra).
  apply Qdiv_pos; lra.
Qed.

Lemma alpha_of_period (period : nat) :
  (1 <= period)%nat -> 0 <= 1 - 1 / inject_Z (Z.of_nat period).
Proof.
  intros H. pose proof (inject_nat_pos period H) as Hpos.
  assert (1 <= inject_Z (Z.of_nat period)).
  { change 1 with (inject_Z 1). rewrite <- Zle_Qle. lia. }
  assert (1 / inject_Z (Z.of_nat period) <= 1)
    by (apply Qle_shift_div_r; lra).
  lra.
Qed.

(** The adjusted mean of a column that starts with the NaN of [diff] and
    continues with rationals satisfying [P]: once [period] observations are
    in, its last value is a rational satisfying [P]. *)
Lemma smoothed_last (P : Q -> Prop) (period : nat) (xs : list Q) :
  closed_under_average P ->
  (1 <= period)%nat -> (period <= length xs)%nat -> Forall P xs ->
  exists w,
    iloc_last (ewm_mean (1 / inject_Z (Z.of_nat period)) true period
                 (NaN :: map Fin xs)) = Fin w /\ P w.
Proof.
  intros Hc Hp Hlen HP.
  destruct xs as [|x xs]; [simpl in Hlen; lia|].
  inversion HP as [|? ? Px Pxs]; subst.
  unfold iloc_last, ewm_mean.
  rewrite last_cons_nonempty by (simpl; discriminate).
  rewrite last_ewm_scan by (simpl; discriminate).
  unfold ewm_run. cbn [map fold_left].
  set (acc1 := ewm_step _ true _ (Fin x)).
  assert (E1 : acc1 = mkAcc (Fin x) 1 1) by reflexivity.
  assert (H1 : acc_holds P acc1).
  { rewrite E1. exists x. cbn. repeat split; try assumption; lra. }
  destruct (ewm_run_holds P _ xs acc1 Hc (alpha_of_period period Hp) H1 Pxs)
    as [[w [Ew [Pw _]]] Hn].
  unfold ewm_run in Ew, Hn. exists w. split; [|exact Pw].
  unfold ewm_out. rewrite Hn, E1. cbn [nobs].
  replace (Nat.max period 1) with period by lia.
  simpl in Hlen.
  assert (E : (period <=? 1 + length xs)%nat = true) by (apply Nat.leb_le; lia).
  rewrite E. exact Ew.
Qed.

Lemma gain_column (q0 : Q) (qs : list Q) :
  map (clip_lower 0) (diff (map Fin (q0 :: qs)))
  = NaN :: map Fin (map gain_of (Qdiffs q0 qs)).
Proof.
  cbn [map diff]. rewrite diff_from_Fin, !map_map.
  f_equal. apply map_ext. intros d. apply clip_lower_Fin.
Qed.

Lemma loss_column (q0 : Q) (qs : list Q) :
  map fopp (map (clip_upper 0) (diff (map Fin (q0 :: qs))))
  = NaN :: map Fin (map loss_of (Qdiffs q0 qs)).
Proof.
  cbn [map diff]. rewrite diff_from_Fin, !map_map.
  f_equal. apply map_ext. intros d. apply clip_upper_Fin.
Qed.

Lemma length_Qdiffs (q0 : Q) (qs : list Q) : length (Qdiffs q0 qs) = length qs.
Proof.
  revert q0. induction qs as [|x qs IH]; intros q0; simpl; [reflexivity|].
  now rewrite IH.
Qed.

(** The value [calculate_rsi] returns, from the two smoothed averages. *)
Lemma calculate_rsi_last (close : series) (period : nat) :
  (period + 1 <= length close)%nat ->
  calculate_rsi close period
  = (100 - 100 / (1 + smoothed_gain close period / smoothed_loss close period))%F.
Proof.
  intros Hlen. unfold calculate_rsi, smoothed_gain, smoothed_loss.
  assert (E0 : (length close =? 0)%nat = false) by (apply Nat.eqb_neq; lia).
  assert (E1 : (length close <? period + 1)%nat = false)
    by (apply Nat.ltb_ge; lia).
  rewrite E0, E1. cbn [orb]. unfold iloc_last.
  change NaN with ((fun r => 100 - 100 / (1 + r))%F (NaN / NaN)%F) at 1.
  rewrite last_map_default. rewrite last_zip_with; [reflexivity|].
  now rewrite !length_ewm_mean, !length_map.
Qed.

Lemma rsi_of_averages (g l : Q) :
  0 <= g -> 0 <= l ->
  let rsi := (100 - 100 / (1 + Fin g / Fin l))%F in
  (0 < l -> within 0 100 rsi) /\
  (l == 0 -> 0 < g -> rsi =f= 100) /\
  (l == 0 -> g == 0 -> rsi = NaN).
Proof.
  intros Hg Hl rsi. subst rsi. split; [|split].
  - intros Hpos. rewrite fdiv_Fin by lra. cbn [fadd].
    assert (Hr : 0 <= g / l) by (apply Qdiv_nonneg; lra).
    rewrite fdiv_Fin by lra. cbn [fsub fopp fadd within].
    assert (0 <= 100 / (1 + g / l)) by (apply Qdiv_nonneg; lra).
    assert (100 / (1 + g / l) <= 100) by (apply Qle_shift_div_r; lra).
    split; lra.
  - intros Hz Hpos. cbn [fdiv]. rewrite (Qeq_bool_true l 0 Hz).
    destruct (Qcompare_spec g 0); try lra. simpl. lra.
  - intros Hz Hz'. cbn [fdiv]. rewrite (Qeq_bool_true l 0 Hz).
    destruct (Qcompare_spec g 0); try lra. reflexivity.
Qed.

(** C4, as the code has it.  With at least [period + 1] finite closes the
    two smoothed averages are non-negative numbers, and [calculate_rsi]
    returns a value in [0,100] when the smoothed loss is positive, 100 when
    the smoothed loss is zero and the smoothed gain positive, and NaN when
    both are zero.  On a strictly increasing series it returns 100. *)
Theorem calculate_rsi_range (qs : list Q) (period : nat) :
  (1 <= period)%nat -> (period + 1 <= length qs)%nat ->
  let close := map Fin qs in
  (exists g l : Q,
     smoothed_gain close period = Fin g /\
     smoothed_loss close period = Fin l /\
     0 <= g /\ 0 <= l /\
     (0 < l -> within 0 100 (calculate_rsi close period)) /\
     (l == 0 -> 0 < g -> calculate_rsi close period =f= 100) /\
     (l == 0 -> g == 0 -> calculate_rsi close period = NaN)) /\
  (strictly_increasing qs -> calculate_rsi close period =f= 100).
Proof.
  intros Hp Hlen close. subst close.
  destruct qs as [|q0 qs]; [simpl in Hlen; lia|].
  assert (Hd : (period <= length (Qdiffs q0 qs))%nat)
    by (rewrite length_Qdiffs; simpl in Hlen; lia).
  rewrite calculate_rsi_last by (rewrite length_map; exact Hlen).
  unfold smoothed_gain, smoothed_loss.
  rewrite gain_column, loss_column. split.
  - destruct (smoothed_last (fun w => 0 <= w) period
                (map gain_of (Qdiffs q0 qs)) nonneg_closed Hp)
      as [g [Eg Hg]].
    { now rewrite length_map. }
    { apply Forall_forall. intros x Hx. apply in_map_iff in Hx.
      destruct Hx as [d [<- _]]. apply gain_of_nonneg. }
    destruct (smoothed_last (fun w => 0 <= w) period
                (map loss_of (Qdiffs q0 qs)) nonneg_closed Hp)
      as [l [El Hl]].
    { now rewrite length_map. }
    { apply Forall_forall. intros x Hx. apply in_map_iff in Hx.
      destruct Hx as [d [<- _]]. apply loss_of_nonneg. }
    exists g, l. rewrite Eg, El.
    split; [reflexivity|]. split; [reflexivity|].
    split; [exact Hg|]. split; [exact Hl|].
    apply rsi_of_averages; assumption.
  - intros Hinc. cbn [strictly_increasing] in Hinc.
    destruct (smoothed_last (fun w => 0 < w) period
                (map gain_of (Qdiffs q0 qs)) positive_closed Hp)
      as [g [Eg Hg]].
    { now rewrite length_map. }
    { apply Forall_forall. intros x Hx. apply in_map_iff in Hx.
      destruct Hx as [d [<- Hin]].
      rewrite Forall_forall in Hinc. specialize (Hinc d Hin).
      unfold gain_of. destruct (Qcompare_spec d 0); lra. }
    destruct (smoothed_last (fun w => w == 0) period
                (map loss_of (Qdiffs q0 qs)) zero_closed Hp)
      as [l [El Hl]].
    { now rewrite length_map. }
    { apply Forall_forall. intros x Hx. apply in_map_iff in Hx.
      destruct Hx as [d [<- Hin]].
      rewrite Forall_forall in Hinc. specialize (Hinc d Hin).
      unfold loss_of. destruct (Qcompare_spec d 0); lra. }
    rewrite Eg, El.
    apply (rsi_of_averages g l); lra.
Qed.

Lemma calculate_rsi_range_witness :
  calculate_rsi (map Fin [1; 2; 3; 5]) 2 =f= 100.
Proof.
  apply (calculate_rsi_range [1; 2; 3; 5] 2); simpl; try lia.
  repeat constructor.
Defined.

(** C4 as stated fails: fifteen equal closes are [period + 1] finite
    closes of a non-decreasing series whose smoothed loss is zero, and the
    RSI is NaN, not 100. *)
Lemma calculate_rsi_constant_series :
  smoothed_loss (map Fin (repeat 1 15)) 14 =f= 0 /\
  calculate_rsi (map Fin (repeat 1 15)) 14 = NaN.
Proof. split; vm_compute; reflexivity. Qed.

(** ** Projection *)

Lemma dropna_Fin (qs : list Q) : dropna (map Fin qs) = map Fin qs.
Proof.
  unfold dropna. induction qs as [|q qs IH]; simpl; [reflexivity|].
  now rewrite IH.
Qed.

Lemma last_map_Fin (q : Q) (qs : list Q) (d : Q) :
  last (map Fin (q :: qs)) NaN = Fin (last (q :: qs) d).
Proof.
  revert q. induction qs as [|x qs IH]; intros q; [reflexivity|].
  change (last (map Fin (q :: x :: qs)) NaN) with (last (map Fin (x :: qs)) NaN).
  rewrite IH. reflexivity.
Qed.

(** One row of the unadjusted mean is one step of the recurrence. *)
Lemma ewm_step_unadjusted (alpha : Q) (acc : ewm_acc) (w x : Q) :
  weighted acc = Fin w -> old_wt acc = 1 ->
  exists w',
    ewm_step alpha false acc (Fin x) = mkAcc (Fin w') 1 (S (nobs acc)) /\
    w' == (1 - alpha) * w + alpha * x.
Proof.
  intros Ew Ewt. unfold ewm_step. rewrite Ew, Ewt. cbn [isnan negb].
  replace (nobs acc + 1)%nat with (S (nobs acc)) by lia.
  unfold fne, fcompare. destruct (Qcompare_spec w x) as [E|L|G].
  - exists w. split; [reflexivity|]. rewrite <- E. ring.
  - eexists. split.
    + cbn [fmul fadd]. rewrite fdiv_Fin; [reflexivity|].
      intros H. ring_simplify in H. discriminate H.
    + field. intros H. ring_simplify in H. discriminate H.
  - eexists. split.
    + cbn [fmul fadd]. rewrite fdiv_Fin; [reflexivity|].
      intros H. ring_simplify in H. discriminate H.
    + field. intros H. ring_simplify in H. discriminate H.
Qed.

Lemma ema_step_proper (alpha : Q) (xs : list Q) (y y' : Q) :
  y == y' ->
  fold_left (fun y x => (1 - alpha) * y + alpha * x) xs y
  == fold_left (fun y x => (1 - alpha) * y + alpha * x) xs y'.
Proof.
  revert y y'. induction xs as [|x xs IH]; intros y y' H; simpl; [exact H|].
  apply IH. now rewrite H.
Qed.

Lemma ewm_scan_unadjusted (alpha : Q) (xs : list Q) :
  forall (acc : ewm_acc) (w : Q),
    weighted acc = Fin w -> old_wt acc = 1 -> (1 <= nobs acc)%nat ->
    exists ws,
      ewm_scan alpha false 1 acc (map Fin xs) = map Fin ws /\
      last (w :: ws) 0
      == fold_left (fun y x => (1 - alpha) * y + alpha * x) xs w.
Proof.
  induction xs as [|x xs IH]; intros acc w Ew Ewt Hn.
  - exists []. split; reflexivity.
  - destruct (ewm_step_unadjusted alpha acc w x Ew Ewt) as [w' [Es Hw']].
    destruct (IH (mkAcc (Fin w') 1 (S (nobs acc))) w' eq_refl eq_refl
                ltac:(cbn; lia)) as [ws [Escan Hlast]].
    exists (w' :: ws). split.
    + cbn [map ewm_scan]. rewrite Es, Escan.
      unfold ewm_out. cbn [nobs weighted]. reflexivity.
    + change (last (w :: w' :: ws) 0) with (last (w' :: ws) 0).
      rewrite Hlast. cbn [fold_left]. now apply ema_step_proper.
Qed.

(** The unadjusted mean of finite closes: every row is a number, and the
    last row is the value of the recurrence over the whole series. *)
Lemma ewm_mean_unadjusted (alpha : Q) (q : Q) (qs : list Q) :
  exists ws,
    ewm_mean alpha false 0 (map Fin (q :: qs)) = map Fin (q :: ws) /\
    last (q :: ws) 0 == ema_recurrence alpha (q :: qs).
Proof.
  destruct (ewm_scan_unadjusted alpha qs (mkAcc (Fin q) 1 1) q
              eq_refl eq_refl ltac:(cbn; lia)) as [ws [Escan Hlast]].
  exists ws. split; [|exact Hlast].
  cbn [map ewm_mean isnan Nat.max]. rewrite Escan. reflexivity.
Qed.

Section ProjectionProperties.

Variable np_sqrt : float64 -> float64.

Lemma project_future_price_finite (hist : series) (qs : list Q) (span : nat) :
  dropna hist = map Fin qs -> (2 <= length qs)%nat -> (1 <= span)%nat ->
  let tail_len := Nat.min span (length qs) in
  let std_value := series_std np_sqrt (tail tail_len (map Fin qs)) in
  exists e,
    e == ema_recurrence (alpha_of_span tail_len) qs /\
    project_future_price np_sqrt hist span
    = (Fin e, (Fin e - std_value)%F, (Fin e + std_value)%F).
Proof.
  intros Hdrop Hlen Hspan tail_len std_value.
  unfold project_future_price.
  assert (E0 : (length hist =? 0)%nat = false).
  { apply Nat.eqb_neq. intros H0. apply length_zero_iff_nil in H0.
    subst hist. destruct qs; simpl in *; [lia | discriminate]. }
  rewrite E0, Hdrop, length_map.
  assert (E1 : (length qs <? 2)%nat = false) by (apply Nat.ltb_ge; lia).
  rewrite E1. fold tail_len.
  assert (E2 : (tail_len <? 1)%nat = false)
    by (apply Nat.ltb_ge; unfold tail_len; lia).
  rewrite E2.
  destruct qs as [|q qs]; [simpl in Hlen; lia|].
  destruct (ewm_mean_unadjusted (alpha_of_span tail_len) q qs)
    as [ws [Emean Hlast]].
  rewrite Emean, dropna_Fin.
  cbn [map length Nat.eqb]. unfold iloc_last.
  change (Fin q :: map Fin ws) with (map Fin (q :: ws)).
  rewrite (last_map_Fin q ws 0). cbn [isnan].
  exists (last (q :: ws) 0). split; [exact Hlast | reflexivity].
Qed.

Lemma project_instrument_finite
  (hist column : series) (price : float64) (qs : list Q) (span days : nat) :
  dropna hist = map Fin qs -> (2 <= length qs)%nat -> (1 <= span)%nat ->
  let tail_len := Nat.min span (length qs) in
  let spread_now := series_std np_sqrt (tail tail_len (map Fin qs)) in
  let slope := fst (calculate_trend hist span) in
  let drift :=
    (series_std np_sqrt column * np_sqrt (of_nat days) / np_sqrt 252)%F in
  exists e,
    e == ema_recurrence (alpha_of_span tail_len) qs /\
    project_instrument np_sqrt hist column price span days
    = ((Fin e + slope * of_nat days)%F,
       (Fin e - spread_now + slope * of_nat days - drift)%F,
       (Fin e + spread_now + slope * of_nat days + drift)%F).
Proof.
  intros Hdrop Hlen Hspan tail_len spread_now slope drift.
  destruct (project_future_price_finite hist qs span Hdrop Hlen Hspan)
    as [e [He Hp]].
  exists e. split; [exact He|].
  unfold project_instrument. rewrite Hp. reflexivity.
Qed.

(** C6, as the code has it.  For a history with at least two available
    (finite) closes and a span of at least 1: tail = min(span, number of
    closes); expected_now is the last value of the moving average with
    span tail run over all the closes; spread_now is the standard
    deviation of the last tail closes; the drift is the standard
    deviation of the instrument's column of the merged table times
    sqrt(days) / sqrt(252); and the projection returns
    expected_now + slope * days,
    expected_now - spread_now + slope * days - drift and
    expected_now + spread_now + slope * days + drift. *)
Theorem project_instrument_formula
  (hist column : series) (price : float64) (qs : list Q) (span days : nat) :
  dropna hist = map Fin qs -> (2 <= length qs)%nat -> (1 <= span)%nat ->
  let tail_len := Nat.min span (length qs) in
  let expected_now := Fin (ema_recurrence (alpha_of_span tail_len) qs) in
  let spread_now := series_std np_sqrt (tail tail_len (map Fin qs)) in
  let slope := fst (calculate_trend hist span) in
  let drift :=
    (series_std np_sqrt column * np_sqrt (of_nat days) / np_sqrt 252)%F in
  let '(future, lower, upper) :=
    project_instrument np_sqrt hist column price span days in
  future =f= (expected_now + slope * of_nat days)%F /\
  lower =f= (expected_now - spread_now + slope * of_nat days - drift)%F /\
  upper =f= (expected_now + spread_now + slope * of_nat days + drift)%F.
Proof.
  intros Hdrop Hlen Hspan tail_len expected_now spread_now slope drift.
  destruct (project_instrument_finite hist column price qs span days
              Hdrop Hlen Hspan) as [e [He Hp]].
  rewrite Hp. fold tail_len spread_now slope drift.
  assert (Hv : Fin e =f= expected_now) by exact He.
  repeat split; now rewrite Hv.
Qed.

(** The bounds the projection hands to the three orders are ordered:
    whenever the standard deviation, the drift and the slope are numbers
    and the first two are non-negative, lower <= expected <= upper. *)
Lemma project_instrument_ordered
  (hist column : series) (price : float64) (qs : list Q) (span days : nat)
  (spread drift slope : Q) :
  dropna hist = map Fin qs -> (2 <= length qs)%nat -> (1 <= span)%nat ->
  series_std np_sqrt (tail (Nat.min span (length qs)) (map Fin qs)) = Fin spread ->
  (series_std np_sqrt column * np_sqrt (of_nat days) / np_sqrt 252)%F = Fin drift ->
  fst (calculate_trend hist span) = Fin slope ->
  0 <= spread -> 0 <= drift ->
  let '(future, lower, upper) :=
    project_instrument np_sqrt hist column price span days in
  not_above lower future /\ not_above future upper.
Proof.
  intros Hdrop Hlen Hspan Hs Hd Hsl Hs0 Hd0.
  destruct (project_instrument_finite hist column price qs span days
              Hdrop Hlen Hspan) as [e [_ Hp]].
  rewrite Hp, Hs, Hd, Hsl.
  unfold of_nat. cbn [fadd fsub fmul fopp not_above]. split; lra.
Qed.

End ProjectionProperties.

Lemma project_instrument_formula_witness :
  let '(future, lower, upper) :=
    project_instrument (fun x => x) (map Fin [1; 2; 4]) (map Fin [1; 2; 4]) 4 2 80 in
  future =f= (Fin (ema_recurrence (alpha_of_span 2) [1; 2; 4])
              + fst (calculate_trend (map Fin [1; 2; 4]) 2) * of_nat 80)%F.
Proof.
  apply (project_instrument_formula (fun x => x) (map Fin [1; 2; 4])
           (map Fin [1; 2; 4]) 4 [1; 2; 4] 2 80); simpl; try reflexivity; lia.
Defined.

(** C6 as stated fails: on the closes 1, 2, 4 with span 2 the projection's
    level is the moving average over all three closes (29/9), not the one
    taken over only the last two (10/3). *)
Lemma projection_ema_runs_over_whole_series :
  ema_over_tail_only [1; 2; 4] 2 == 10 # 3 /\
  ~ (forall np_sqrt : float64 -> float64,
       fst (fst (project_future_price np_sqrt (map Fin [1; 2; 4]) 2))
       =f= Fin (ema_over_tail_only [1; 2; 4] 2)).
Proof.
  split; [vm_compute; reflexivity|].
  intros H. specialize (H (fun x => x)). vm_compute in H. discriminate H.
Qed.

(** ** The historical table

    [calculate_historical_orders] computes the same breakdown row by row;
    on finite prices with a non-zero copper price in CNY each of its
    columns has the value [calculate_order] returns. *)
Lemma historical_order_row_agrees (b p t c o e u : Q) :
  ~ c * u == 0 ->
  Forall2 same_value
    (fields (historical_order_row b p t c o e u))
    (fields (calculate_order b p t c o e u)).
Proof.
  intros Hnz. unfold fields.
  assert (Ht : o * u * (t / 100) == o * u * t / 100) by (field; lra).
  order_cases; repeat constructor; float_cbn; lra.
Qed.

(** ** Further properties of the order calculator *)

(** Multiplying the budget by [k] multiplies the budget in CNY, both
    allocations and both quantities by [k]. *)
Theorem calculate_order_scales_with_budget (k b p t c o e u : Q) :
  ~ c * u == 0 ->
  let r := calculate_order b p t c o e u in
  let r' := calculate_order (k * b) p t c o e u in
  budget_cny r' =f= (Fin k * budget_cny r)%F /\
  copper_budget_cny r' =f= (Fin k * copper_budget_cny r)%F /\
  other_budget_cny r' =f= (Fin k * other_budget_cny r)%F /\
  copper_quantity_lb r' =f= (Fin k * copper_quantity_lb r)%F /\
  copper_quantity_ton r' =f= (Fin k * copper_quantity_ton r)%F.
Proof.
  intros Hnz r r'. subst r r'.
  order_unfold. set (d := c * u) in *.
  compare_cases; try lra; repeat split; try ring; field; assumption.
Qed.

Lemma calculate_order_scales_with_budget_witness :
  copper_quantity_ton (calculate_order (2 * 100000) 50 1 4.5 80 7.8 7.2)
  =f= (Fin 2 * copper_quantity_ton (calculate_order 100000 50 1 4.5 80 7.8 7.2))%F.
Proof.
  apply (calculate_order_scales_with_budget 2 100000 50 1 4.5 80 7.8 7.2).
  vm_compute. discriminate.
Defined.

(** The transport cost depends on neither the budget, the copper share,
    the copper price nor the EUR/CNY rate, as long as those two prices are
    available: it is oil price times USD/CNY times the factor over 100. *)
Theorem transport_cost_ignores_budget
  (b b' p p' t o u : float64) (c c' e e' : Q) :
  transport_cost_cny (calculate_order b p t c o e u)
  = transport_cost_cny (calculate_order b' p' t c' o e' u).
Proof.
  unfold calculate_order. cbn [existsb isnan orb].
  destruct (isnan o), (isnan u); reflexivity.
Qed.

Lemma historical_order_row_agrees_witness :
  Forall2 same_value
    (fields (historical_order_row 100000 50 1 4.5 80 7.8 7.2))
    (fields (calculate_order 100000 50 1 4.5 80 7.8 7.2)).
Proof.
  apply (historical_order_row_agrees 100000 50 1 4.5 80 7.8 7.2).
  vm_compute. discriminate.
Defined.

(** The historical table divides without a guard: on a row of ordinary
    magnitudes whose copper price and USD/CNY rate are non-negative with a
    product of zero, and whose copper budget is positive, the quantity is
    plus infinity, where [calculate_order] answers NaN.  (With a negative
    factor the zero product is -0.0 and the quotient minus infinity; the
    model does not track that sign, hence the hypotheses.) *)
Theorem historical_order_row_zero_price (b p t c o e u : Q) :
  ordinary b -> ordinary p -> ordinary e ->
  0 <= c -> 0 <= u -> c * u == 0 -> 0 < b * e * (p / 100) ->
  copper_quantity_lb (historical_order_row b p t c o e u) = PInf /\
  copper_quantity_ton (historical_order_row b p t c o e u) = PInf /\
  copper_quantity_lb (calculate_order b p t c o e u) = NaN /\
  copper_quantity_ton (calculate_order b p t c o e u) = NaN.
Proof.
  intros _ _ _ _ _ Hz Hpos. order_unfold.
  rewrite (Qeq_bool_true _ _ Hz).
  destruct (Qcompare_spec (c * u) 0); try lra.
  destruct (Qcompare_spec (b * e * (p / 100)) 0); try lra.
  repeat split; reflexivity.
Qed.

Lemma historical_order_row_zero_price_witness :
  copper_quantity_lb (historical_order_row 100000 50 1 0 80 7.8 7.2) = PInf.
Proof.
  apply (historical_order_row_zero_price 100000 50 1 0 80 7.8 7.2);
    vm_compute; try reflexivity; discriminate.
Defined.

Lemma Qmult_nonzero (c u : Q) : ~ c * u == 0 -> ~ c == 0 /\ ~ u == 0.
Proof.
  intros H. split; intros E; apply H; rewrite E; ring.
Qed.

(** The sensitivity grid in closed form: the copper scenarios divide the
    baseline quantity by 1.05 and 0.95, the oil scenarios leave it
    unchanged, and the EUR/CNY scenarios multiply it by 1.05 and 0.95. *)
Theorem sensitivity_results_closed_form (b p t c o e u : Q) :
  ~ c * u == 0 ->
  let base := baseline_quantity b p t c o e u in
  exists q1 q2 q5 q6 : float64,
    sensitivity_results b p t c o e u
    = [ ("Cobre +5%"%string, q1); ("Cobre -5%"%string, q2);
        ("Petróleo +5%"%string, base); ("Petróleo -5%"%string, base);
        ("EUR/CNY +5%"%string, q5); ("EUR/CNY -5%"%string, q6) ] /\
    (q1 * Fin 1.05)%F =f= base /\
    (q2 * Fin 0.95)%F =f= base /\
    q5 =f= (Fin 1.05 * base)%F /\
    q6 =f= (Fin 0.95 * base)%F.
Proof.
  intros Hnz base. subst base.
  assert (H1 : ~ c * 1.05 * u == 0) by (intros H; apply Hnz; lra).
  assert (H2 : ~ c * 0.95 * u == 0) by (intros H; apply Hnz; lra).
  unfold sensitivity_results, variations. cbn [map].
  do 4 eexists. split.
  - repeat f_equal.
    all: unfold baseline_quantity, calculate_order;
      cbn [existsb isnan orb fmul]; reflexivity.
  - order_unfold.
    rewrite (Qeq_bool_false _ _ Hnz), (Qeq_bool_false _ _ H1),
      (Qeq_bool_false _ _ H2).
    destruct (Qmult_nonzero c u Hnz) as [Hc Hu].
    compare_cases; try lra; try (exfalso; apply Hnz; lra);
      repeat split; field; repeat split; assumption.
Qed.

Lemma sensitivity_results_closed_form_witness :
  exists q1 q2 q5 q6 : float64,
    sensitivity_results 100000 50 1 4.5 80 7.8 7.2
    = [ ("Cobre +5%"%string, q1); ("Cobre -5%"%string, q2);
        ("Petróleo +5%"%string, baseline_quantity 100000 50 1 4.5 80 7.8 7.2);
        ("Petróleo -5%"%string, baseline_quantity 100000 50 1 4.5 80 7.8 7.2);
        ("EUR/CNY +5%"%string, q5); ("EUR/CNY -5%"%string, q6) ] /\
    (q1 * Fin 1.05)%F =f= baseline_quantity 100000 50 1 4.5 80 7.8 7.2 /\
    (q2 * Fin 0.95)%F =f= baseline_quantity 100000 50 1 4.5 80 7.8 7.2 /\
    q5 =f= (Fin 1.05 * baseline_quantity 100000 50 1 4.5 80 7.8 7.2)%F /\
    q6 =f= (Fin 0.95 * baseline_quantity 100000 50 1 4.5 80 7.8 7.2)%F.
Proof.
  apply (sensitivity_results_closed_form 100000 50 1 4.5 80 7.8 7.2).
  vm_compute. discriminate.
Defined.

(** ** The realtime buffers *)

Lemma length_lastn_min (A : Type) (n : nat) (l : list A) :
  length (lastn n l) = Nat.min n (length l).
Proof. unfold lastn. rewrite length_skipn. lia. Qed.

Lemma last_100_push (A : Type) (l : list A) (x : A) :
  length (Realtime.last_100 (l ++ [x])) = Nat.min 100 (S (length l)).
Proof.
  unfold Realtime.last_100. rewrite length_lastn_min, length_app.
  cbn [length]. lia.
Qed.

Lemma last_100_pushed (A : Type) (l : list A) (x : A) :
  pushed l x (Realtime.last_100 (l ++ [x])).
Proof.
  unfold pushed, Realtime.last_100, lastn. rewrite length_app. cbn [length].
  split; intros H.
  - replace (length l + 1 - 100)%nat with 0%nat by lia. reflexivity.
  - replace (length l + 1 - 100)%nat with 1%nat by lia.
    destruct l as [|y l]; [discriminate H|]. reflexivity.
Qed.

(** After any number of refreshes from the initial state the six buffers
    have the same length: the number of refreshes, capped at 100. *)
Theorem realtime_buffers_aligned (obs : list Realtime.observation) :
  let d := fold_left Realtime.append_observation obs Realtime.initial in
  let n := Nat.min (length obs) 100 in
  length (Realtime.copper d) = n /\
  length (Realtime.oil d) = n /\
  length (Realtime.eur_cny d) = n /\
  length (Realtime.usd_cny d) = n /\
  length (Realtime.copper_quantity_ton d) = n /\
  length (Realtime.timestamps d) = n.
Proof.
  cbv zeta.
  assert (G : forall (obs : list Realtime.observation) (d : Realtime.data) (m : nat),
             length (Realtime.copper d) = Nat.min m 100 ->
             length (Realtime.oil d) = Nat.min m 100 ->
             length (Realtime.eur_cny d) = Nat.min m 100 ->
             length (Realtime.usd_cny d) = Nat.min m 100 ->
             length (Realtime.copper_quantity_ton d) = Nat.min m 100 ->
             length (Realtime.timestamps d) = Nat.min m 100 ->
             let d' := fold_left Realtime.append_observation obs d in
             let n := Nat.min (m + length obs) 100 in
             length (Realtime.copper d') = n /\
             length (Realtime.oil d') = n /\
             length (Realtime.eur_cny d') = n /\
             length (Realtime.usd_cny d') = n /\
             length (Realtime.copper_quantity_ton d') = n /\
             length (Realtime.timestamps d') = n).
  { clear obs. induction obs as [|ob obs IH]; intros d m H1 H2 H3 H4 H5 H6.
    - cbn [fold_left length]. rewrite Nat.add_0_r. repeat split; assumption.
    - cbn [fold_left length].
      destruct ob as [[[[[c o] e] u] q] ts].
      replace (m + S (length obs))%nat with (S m + length obs)%nat by lia.
      apply IH; cbn [Realtime.append_observation Realtime.append_realtime_data
                      Realtime.copper Realtime.oil Realtime.eur_cny
                      Realtime.usd_cny Realtime.copper_quantity_ton
                      Realtime.timestamps];
        rewrite last_100_push; lia. }
  apply (G obs Realtime.initial 0%nat); reflexivity.
Qed.

(** One refresh pushes its observation into each buffer: the new entry is
    the last one, the earlier entries keep their order, and only the
    oldest is dropped, when the buffer already holds 100. *)
Theorem append_realtime_data_pushes (d : Realtime.data)
  (c o e u q : float64) (ts : Z) :
  let d' := Realtime.append_realtime_data d c o e u q ts in
  pushed (Realtime.copper d) c (Realtime.copper d') /\
  pushed (Realtime.oil d) o (Realtime.oil d') /\
  pushed (Realtime.eur_cny d) e (Realtime.eur_cny d') /\
  pushed (Realtime.usd_cny d) u (Realtime.usd_cny d') /\
  pushed (Realtime.copper_quantity_ton d) q (Realtime.copper_quantity_ton d') /\
  pushed (Realtime.timestamps d) ts (Realtime.timestamps d').
Proof.
  cbv zeta. unfold Realtime.append_realtime_data.
  cbn [Realtime.copper Realtime.oil Realtime.eur_cny Realtime.usd_cny
       Realtime.copper_quantity_ton Realtime.timestamps].
  repeat split; apply last_100_pushed.
Qed.

(** ** Downloads *)

Lemma fetch_attempts_result (download : nat -> option frames)
  (remaining attempt : nat) :
  let r := fetch_attempts download attempt remaining in
  (r = empty_frames /\
   forall k f, (attempt <= k < attempt + remaining)%nat ->
               download k = Some f -> ~ rows_ok f) \/
  (exists k, (attempt <= k < attempt + remaining)%nat /\
             download k = Some r /\ rows_ok r /\
             forall j f, (attempt <= j < k)%nat ->
                         download j = Some f -> ~ rows_ok f).
Proof.
  revert attempt. induction remaining as [|remaining IH]; intros attempt.
  - left. split; [reflexivity|]. intros k f Hk. lia.
  - cbn [fetch_attempts].
    assert (Next :
      (forall f, download attempt = Some f -> ~ rows_ok f) ->
      let r := fetch_attempts download (S attempt) remaining in
      (r = empty_frames /\
       forall k f, (attempt <= k < attempt + S remaining)%nat ->
                   download k = Some f -> ~ rows_ok f) \/
      (exists k, (attempt <= k < attempt + S remaining)%nat /\
                 download k = Some r /\ rows_ok r /\
                 forall j f, (attempt <= j < k)%nat ->
                             download j = Some f -> ~ rows_ok f)).
    { intros Hbad. cbv zeta.
      destruct (IH (S attempt)) as [[E Hall]|[k [Hk [Ek [Hok Hprev]]]]].
      - left. split; [exact E|]. intros k f Hk Ef.
        destruct (Nat.eq_dec k attempt) as [->|Hne]; [now apply Hbad|].
        apply (Hall k f); [lia | exact Ef].
      - right. exists k. split; [lia|]. split; [exact Ek|].
        split; [exact Hok|]. intros j f Hj Ef.
        destruct (Nat.eq_dec j attempt) as [->|Hne]; [now apply Hbad|].
        apply (Hprev j f); [lia | exact Ef]. }
    destruct (download attempt) as [[[[c o] e] u]|] eqn:Ed.
    + destruct (existsb (fun df => (length df =? 0)%nat) [c; o; e; u]) eqn:E0.
      * apply Next. intros f Ef. injection Ef as <-.
        cbn [existsb] in E0. unfold rows_ok.
        repeat (apply orb_prop in E0; destruct E0 as [E0|E0]);
          try discriminate; apply Nat.eqb_eq in E0; lia.
      * destruct (existsb (fun df => (length df <? 30)%nat) [c; o; e; u]) eqn:E1.
        -- apply Next. intros f Ef. injection Ef as <-.
           cbn [existsb] in E1. unfold rows_ok.
           repeat (apply orb_prop in E1; destruct E1 as [E1|E1]);
             try discriminate; apply Nat.ltb_lt in E1; lia.
        -- right. exists attempt. split; [lia|]. split; [exact Ed|]. split.
           ++ cbn [existsb] in E1. unfold rows_ok.
              repeat (apply orb_false_elim in E1; destruct E1 as [? E1]).
              repeat match goal with
                | H : (_ <? _)%nat = false |- _ => apply Nat.ltb_ge in H
                end.
              repeat split; assumption.
           ++ intros j f Hj. lia.
    + apply Next. intros f Ef. discriminate Ef.
Qed.

(** [fetch_historical_data] returns the tables of the first of at most
    three attempts in which all four tables have at least 30 rows, and
    four empty tables when none of the three attempts is like that; a
    fourth attempt is never made. *)
Theorem fetch_historical_data_result (download : nat -> option frames) :
  let r := fetch_historical_data download in
  (r = empty_frames /\
   forall k f, (k < 3)%nat -> download k = Some f -> ~ rows_ok f) \/
  (exists k, (k < 3)%nat /\ download k = Some r /\ rows_ok r /\
             forall j f, (j < k)%nat -> download j = Some f -> ~ rows_ok f).
Proof.
  cbv zeta. unfold fetch_historical_data, max_retries.
  destruct (fetch_attempts_result download 3 0) as [[E H]|[k [Hk [Ek [Hok H]]]]].
  - left. split; [exact E|]. intros k f Hk. apply H. lia.
  - right. exists k. split; [lia|]. split; [exact Ek|]. split; [exact Hok|].
    intros j f Hj. apply H. lia.
Qed.

(** Whatever the downloads give, each fetched history is either empty or
    long enough for the 30-day trend: its label is "Alcista" or "Bajista",
    never "Indeterminada". *)
Theorem fetched_history_has_trend (download : nat -> option frames) :
  let '(copper_hist, oil_hist, eur_cny_hist, usd_cny_hist) :=
    fetch_historical_data download in
  Forall (fun hist =>
            hist = [] \/
            snd (calculate_trend hist 30) = "Alcista"%string \/
            snd (calculate_trend hist 30) = "Bajista"%string)
         [copper_hist; oil_hist; eur_cny_hist; usd_cny_hist].
Proof.
  assert (T : forall hist : series, (30 <= length hist)%nat ->
              snd (calculate_trend hist 30) = "Alcista"%string \/
              snd (calculate_trend hist 30) = "Bajista"%string).
  { intros hist H. unfold calculate_trend.
    assert (E0 : (length hist =? 0)%nat = false) by (apply Nat.eqb_neq; lia).
    assert (E1 : (length hist <? 30)%nat = false) by (apply Nat.ltb_ge; lia).
    rewrite E0, E1. cbn [orb snd].
    destruct (fgt _ _); [left | right]; reflexivity. }
  destruct (fetch_attempts_result download 3 0) as [[E _]|[k [_ [_ [Hok _]]]]];
    unfold fetch_historical_data, max_retries.
  - rewrite E. unfold empty_frames.
    repeat (apply Forall_cons; [left; reflexivity|]). apply Forall_nil.
  - destruct (fetch_attempts download 0 3) as [[[c o] e] u].
    destruct Hok as [Hc [Ho [He Hu]]].
    repeat (apply Forall_cons; [right; apply T; assumption|]).
    apply Forall_nil.
Qed.

Lemma argmin_from_spec (l pre : list Z) (best_idx : nat) (best : Z) :
  nth_error pre best_idx = Some best ->
  (forall x, In x pre -> (best <= x)%Z) ->
  (forall j x, (j < best_idx)%nat -> nth_error pre j = Some x -> (best < x)%Z) ->
  exists m,
    nth_error (pre ++ l) (argmin_from best_idx best (length pre) l) = Some m /\
    (forall x, In x (pre ++ l) -> (m <= x)%Z) /\
    (forall j x, (j < argmin_from best_idx best (length pre) l)%nat ->
                 nth_error (pre ++ l) j = Some x -> (m < x)%Z).
Proof.
  revert pre best_idx best.
  induction l as [|x l IH]; intros pre best_idx best Hb Hmin Hfirst.
  - cbn [argmin_from]. rewrite app_nil_r. exists best. auto.
  - assert (Hlt : (best_idx < length pre)%nat)
      by (apply nth_error_Some; rewrite Hb; discriminate).
    cbn [argmin_from].
    replace (pre ++ x :: l) with ((pre ++ [x]) ++ l)
      by (rewrite <- app_assoc; reflexivity).
    replace (S (length pre)) with (length (pre ++ [x]))
      by (rewrite length_app; simpl; lia).
    destruct (Z.ltb_spec x best) as [Hx|Hx].
    + apply IH.
      * rewrite nth_error_app2 by lia. rewrite Nat.sub_diag. reflexivity.
      * intros y Hy. apply in_app_or in Hy. destruct Hy as [Hy|[<-|[]]];
          [specialize (Hmin y Hy)|]; lia.
      * intros j y Hj Hy. rewrite nth_error_app1 in Hy by exact Hj.
        apply nth_error_In in Hy. specialize (Hmin y Hy). lia.
    + apply IH.
      * rewrite nth_error_app1 by exact Hlt. exact Hb.
      * intros y Hy. apply in_app_or in Hy. destruct Hy as [Hy|[<-|[]]];
          [apply Hmin; exact Hy | exact Hx].
      * intros j y Hj Hy. rewrite nth_error_app1 in Hy by lia.
        apply (Hfirst j y Hj Hy).
Qed.

Lemma argmin_spec (x : Z) (l : list Z) :
  exists m,
    nth_error (x :: l) (argmin (x :: l)) = Some m /\
    (forall y, In y (x :: l) -> (m <= y)%Z) /\
    (forall j y, (j < argmin (x :: l))%nat ->
                 nth_error (x :: l) j = Some y -> (m < y)%Z).
Proof.
  apply (argmin_from_spec l [x] 0 x).
  - reflexivity.
  - intros y [<-|[]]. lia.
  - intros j y Hj. lia.
Qed.

(** On a non-empty table [get_closest_data] returns the close of a row
    whose date is nearest to the target date; among rows equally near it
    takes the first. *)
Theorem get_closest_data_nearest (df : list (Z * float64)) (target : Z) :
  df <> [] ->
  exists (i : nat) (d : Z) (c : float64),
    nth_error df i = Some (d, c) /\
    get_closest_data (Some df) target = c /\
    (forall d' c', In (d', c') df ->
                   (Z.abs (d - target) <= Z.abs (d' - target))%Z) /\
    (forall j d' c', (j < i)%nat -> nth_error df j = Some (d', c') ->
                     (Z.abs (d - target) < Z.abs (d' - target))%Z).
Proof.
  intros Hne. destruct df as [|row df]; [contradiction|].
  set (f := fun r : Z * float64 => Z.abs (fst r - target)).
  destruct (argmin_spec (f row) (map f df)) as [m [Hm [Hmin Hfirst]]].
  change (f row :: map f df) with (map f (row :: df)) in *.
  set (i := argmin (map f (row :: df))) in *.
  rewrite nth_error_map in Hm.
  destruct (nth_error (row :: df) i) as [[d c]|] eqn:Ei; [|discriminate].
  injection Hm as Hm. exists i, d, c.
  split; [exact Ei|]. split; [|split].
  - unfold get_closest_data. cbn [length Nat.eqb]. fold f. fold i.
    rewrite (nth_error_nth _ _ _ Ei). reflexivity.
  - intros d' c' Hin. change (Z.abs (d - target)) with (f (d, c)).
    rewrite Hm. apply Hmin. apply in_map_iff. exists (d', c'). auto.
  - intros j d' c' Hj Ej. change (Z.abs (d - target)) with (f (d, c)).
    rewrite Hm. apply (Hfirst j); [exact Hj|].
    rewrite nth_error_map, Ej. reflexivity.
Qed.

Lemma get_closest_data_nearest_witness :
  exists (i : nat) (d : Z) (c : float64),
    nth_error [(10%Z, Fin 4.1); (12%Z, Fin 4.3); (16%Z, Fin 4.6)] i = Some (d, c) /\
    get_closest_data (Some [(10%Z, Fin 4.1); (12%Z, Fin 4.3); (16%Z, Fin 4.6)]) 14 = c /\
    (forall d' c', In (d', c') [(10%Z, Fin 4.1); (12%Z, Fin 4.3); (16%Z, Fin 4.6)] ->
                   (Z.abs (d - 14) <= Z.abs (d' - 14))%Z) /\
    (forall j d' c', (j < i)%nat ->
                     nth_error [(10%Z, Fin 4.1); (12%Z, Fin 4.3); (16%Z, Fin 4.6)] j
                     = Some (d', c') ->
                     (Z.abs (d - 14) < Z.abs (d' - 14))%Z).
Proof.
  apply (get_closest_data_nearest
           [(10%Z, Fin 4.1); (12%Z, Fin 4.3); (16%Z, Fin 4.6)] 14).
  discriminate.
Defined.

(** ** The moving average *)

Lemma convex_within (a lo hi y x : Q) :
  0 <= a <= 1 -> lo <= y <= hi -> lo <= x <= hi ->
  lo <= (1 - a) * y + a * x <= hi.
Proof.
  intros [Ha0 Ha1] [Hy0 Hy1] [Hx0 Hx1].
  pose proof (Qmult_le_0_compat (1 - a) (y - lo) ltac:(lra) ltac:(lra)).
  pose proof (Qmult_le_0_compat a (x - lo) Ha0 ltac:(lra)).
  pose proof (Qmult_le_0_compat (1 - a) (hi - y) ltac:(lra) ltac:(lra)).
  pose proof (Qmult_le_0_compat a (hi - x) Ha0 ltac:(lra)).
  split; lra.
Qed.

Lemma ema_recurrence_within (alpha lo hi : Q) (xs : list Q) :
  0 <= alpha <= 1 -> xs <> [] -> Forall (fun q => lo <= q <= hi) xs ->
  lo <= ema_recurrence alpha xs <= hi.
Proof.
  intros Ha Hne Hall. destruct xs as [|x0 xs]; [contradiction|].
  inversion Hall as [|? ? H0 Hrest]; subst. cbn [ema_recurrence].
  clear Hall Hne. revert x0 H0.
  induction Hrest as [|x xs Hx _ IH]; intros y Hy; cbn [fold_left];
    [exact Hy|].
  apply IH. apply convex_within; assumption.
Qed.

Lemma alpha_of_span_unit (n : nat) : (1 <= n)%nat -> 0 <= alpha_of_span n <= 1.
Proof.
  intros H. unfold alpha_of_span.
  pose proof (inject_nat_pos n H) as Hpos.
  assert (1 <= inject_Z (Z.of_nat n)).
  { change 1 with (inject_Z 1). rewrite <- Zle_Qle. lia. }
  split.
  - apply Qdiv_nonneg; lra.
  - apply Qle_shift_div_r; lra.
Qed.

(** The level of the projection lies between the lowest and the highest
    available close. *)
Theorem projection_level_within_range
  (np_sqrt : float64 -> float64) (hist : series) (qs : list Q) (span : nat)
  (lo hi : Q) :
  dropna hist = map Fin qs -> (2 <= length qs)%nat -> (1 <= span)%nat ->
  Forall (fun q => lo <= q <= hi) qs ->
  exists e,
    fst (fst (project_future_price np_sqrt hist span)) = Fin e /\
    lo <= e <= hi.
Proof.
  intros Hdrop Hlen Hspan Hall.
  destruct (project_future_price_finite np_sqrt hist qs span Hdrop Hlen Hspan)
    as [e [He Hp]].
  exists e. rewrite Hp. split; [reflexivity|]. rewrite He.
  apply ema_recurrence_within.
  - apply alpha_of_span_unit. lia.
  - intros ->. simpl in Hlen. lia.
  - exact Hall.
Qed.

Lemma projection_level_within_range_witness :
  exists e,
    fst (fst (project_future_price (fun x => x) (map Fin [3; 5; 4]) 30)) = Fin e /\
    3 <= e <= 5.
Proof.
  apply (projection_level_within_range (fun x => x) (map Fin [3; 5; 4])
           [3; 5; 4] 30 3 5); try reflexivity; simpl; try lia.
  repeat constructor; simpl; discriminate.
Defined.

(** ** MACD *)

Lemma fne_same (c : Q) : fne (Fin c) (Fin c) = false.
Proof.
  unfold fne, fcompare.
  assert (E : (c ?= c) = Eq) by (apply Qeq_alt; reflexivity).
  now rewrite E.
Qed.

Lemma ewm_scan_constant (alpha : Q) (adjust : bool) (c : Q) (n : nat) :
  forall acc, weighted acc = Fin c -> (1 <= nobs acc)%nat ->
    ewm_scan alpha adjust 1 acc (repeat (Fin c) n) = repeat (Fin c) n.
Proof.
  induction n as [|n IH]; intros acc Ew Hn; [reflexivity|].
  cbn [repeat ewm_scan].
  assert (Es : weighted (ewm_step alpha adjust acc (Fin c)) = Fin c /\
               nobs (ewm_step alpha adjust acc (Fin c)) = S (nobs acc)).
  { unfold ewm_step. rewrite Ew. cbn [isnan negb]. rewrite fne_same.
    cbn [weighted nobs]. split; [reflexivity | lia]. }
  destruct Es as [Ew' En'].
  rewrite (IH _ Ew') by lia.
  unfold ewm_out. rewrite Ew', En'.
  replace (1 <=? S (nobs acc))%nat with true
    by (symmetry; apply Nat.leb_le; lia).
  reflexivity.
Qed.

(** The moving average of a constant series is the series itself. *)
Lemma ewm_mean_constant (alpha : Q) (adjust : bool) (c : Q) (n : nat) :
  ewm_mean alpha adjust 0 (repeat (Fin c) n) = repeat (Fin c) n.
Proof.
  destruct n as [|n]; [reflexivity|].
  cbn [repeat ewm_mean isnan Nat.max].
  rewrite ewm_scan_constant by (cbn; try reflexivity; lia).
  reflexivity.
Qed.

Lemma zip_with_repeat (f : float64 -> float64 -> float64) (x y : float64)
  (n : nat) :
  zip_with f (repeat x n) (repeat y n) = repeat (f x y) n.
Proof.
  induction n as [|n IH]; [reflexivity|]. cbn [repeat zip_with].
  now rewrite IH.
Qed.

Lemma iloc_last_repeat (x : float64) (n : nat) :
  (1 <= n)%nat -> iloc_last (repeat x n) = x.
Proof.
  intros H. unfold iloc_last. destruct n as [|n]; [lia|]. clear H.
  induction n as [|n IH]; [reflexivity|].
  change (repeat x (S (S n))) with (x :: repeat x (S n)).
  rewrite last_cons_nonempty by discriminate. exact IH.
Qed.

(** On a constant series of at least 26 closes the MACD, its signal line
    and the histogram are zero at every row, and the message is the
    bearish one: a flat market is reported as "Bajista". *)
Theorem macd_of_constant_series (c : Q) (n : nat) :
  (26 <= n)%nat ->
  let close := repeat (Fin c) n in
  macd_line close = repeat (Fin (c - c)) n /\
  macd_signal_line close = repeat (Fin (c - c)) n /\
  iloc_last (macd_histogram close) =f= 0 /\
  macd_message close
  = "**Señal:** Bajista (MACD por debajo de la línea de señal)"%string.
Proof.
  intros Hn close. subst close.
  assert (Em : macd_line (repeat (Fin c) n) = repeat (Fin (c - c)) n).
  { unfold macd_line. rewrite !ewm_mean_constant. apply zip_with_repeat. }
  assert (Es : macd_signal_line (repeat (Fin c) n) = repeat (Fin (c - c)) n).
  { unfold macd_signal_line. rewrite Em. apply ewm_mean_constant. }
  split; [exact Em|]. split; [exact Es|]. split.
  - unfold macd_histogram. rewrite Em, Es, zip_with_repeat.
    rewrite iloc_last_repeat by lia. simpl. ring.
  - unfold macd_message. rewrite Em, Es, repeat_length.
    replace (n =? 0)%nat with false by (symmetry; apply Nat.eqb_neq; lia).
    replace (26 <=? n)%nat with true by (symmetry; apply Nat.leb_le; lia).
    cbn [negb andb]. rewrite iloc_last_repeat by lia.
    cbn [isnan orb]. unfold fgt, fcompare.
    assert (E : (c - c ?= c - c) = Eq) by (apply Qeq_alt; reflexivity).
    rewrite E. reflexivity.
Qed.

Lemma macd_of_constant_series_witness :
  macd_message (repeat (Fin 4.5) 30)
  = "**Señal:** Bajista (MACD por debajo de la línea de señal)"%string.
Proof.
  apply (macd_of_constant_series 4.5 30). lia.
Defined.

(** ** More on the RSI *)

Lemma smoothed_pair (Pg Pl : Q -> Prop) (q0 : Q) (qs : list Q) (period : nat) :
  closed_under_average Pg -> closed_under_average Pl ->
  (1 <= period)%nat -> (period <= length qs)%nat ->
  Forall (fun d => Pg (gain_of d)) (Qdiffs q0 qs) ->
  Forall (fun d => Pl (loss_of d)) (Qdiffs q0 qs) ->
  exists g l,
    smoothed_gain (map Fin (q0 :: qs)) period = Fin g /\
    smoothed_loss (map Fin (q0 :: qs)) period = Fin l /\
    Pg g /\ Pl l.
Proof.
  intros Hcg Hcl Hp Hlen Hg Hl.
  unfold smoothed_gain, smoothed_loss. rewrite gain_column, loss_column.
  destruct (smoothed_last Pg period (map gain_of (Qdiffs q0 qs)) Hcg Hp)
    as [g [Eg HPg]].
  { now rewrite length_map, length_Qdiffs. }
  { apply Forall_map. exact Hg. }
  destruct (smoothed_last Pl period (map loss_of (Qdiffs q0 qs)) Hcl Hp)
    as [l [El HPl]].
  { now rewrite length_map, length_Qdiffs. }
  { apply Forall_map. exact Hl. }
  exists g, l. auto.
Qed.

(** With at least [period + 1] finite closes the RSI is
    100 * gain / (gain + loss) of the two smoothed averages whenever they
    are not both zero; on a strictly decreasing series it is 0. *)
Theorem calculate_rsi_closed_form (qs : list Q) (period : nat) :
  (1 <= period)%nat -> (period + 1 <= length qs)%nat ->
  let close := map Fin qs in
  (exists g l : Q,
     smoothed_gain close period = Fin g /\
     smoothed_loss close period = Fin l /\
     (0 < g + l -> calculate_rsi close period =f= Fin (100 * g / (g + l)))) /\
  (strictly_decreasing qs -> calculate_rsi close period =f= 0).
Proof.
  intros Hp Hlen close. subst close.
  destruct qs as [|q0 qs]; [simpl in Hlen; lia|].
  assert (Hd : (period <= length qs)%nat) by (simpl in Hlen; lia).
  rewrite calculate_rsi_last by (rewrite length_map; exact Hlen).
  split.
  - destruct (smoothed_pair (fun w => 0 <= w) (fun w => 0 <= w) q0 qs period
                nonneg_closed nonneg_closed Hp Hd)
      as [g [l [Eg [El [Hg Hl]]]]].
    { apply Forall_forall. intros d _. apply gain_of_nonneg. }
    { apply Forall_forall. intros d _. apply loss_of_nonneg. }
    exists g, l. rewrite Eg, El.
    split; [reflexivity|]. split; [reflexivity|]. intros Hsum.
    destruct (Qlt_le_dec 0 l) as [Hpos|Hzero].
    + rewrite fdiv_Fin by lra. cbn [fadd].
      assert (Hr : 0 <= g / l) by (apply Qdiv_nonneg; lra).
      rewrite fdiv_Fin by lra. cbn [fsub fopp fadd same_value].
      field. split; lra.
    + assert (Hl0 : l == 0) by lra.
      cbn [fdiv]. rewrite (Qeq_bool_true l 0 Hl0).
      destruct (Qcompare_spec g 0); try lra.
      cbn [inf_of_sign fadd fdiv fsub fopp same_value].
      rewrite Hl0. field. lra.
  - intros Hdec. cbn [strictly_decreasing] in Hdec.
    destruct (smoothed_pair (fun w => w == 0) (fun w => 0 < w) q0 qs period
                zero_closed positive_closed Hp Hd)
      as [g [l [Eg [El [Hg Hl]]]]].
    { apply Forall_forall. intros d Hin.
      rewrite Forall_forall in Hdec. specialize (Hdec d Hin).
      unfold gain_of. destruct (Qcompare_spec d 0); lra. }
    { apply Forall_forall. intros d Hin.
      rewrite Forall_forall in Hdec. specialize (Hdec d Hin).
      unfold loss_of. destruct (Qcompare_spec d 0); lra. }
    rewrite Eg, El.
    rewrite fdiv_Fin by lra. cbn [fadd].
    assert (Hr : g / l == 0) by (rewrite Hg; field; lra).
    rewrite fdiv_Fin by lra. cbn [fsub fopp fadd same_value].
    rewrite Hr. reflexivity.
Qed.

Lemma calculate_rsi_closed_form_witness :
  calculate_rsi (map Fin [5; 4; 2; 1]) 2 =f= 0.
Proof.
  apply (calculate_rsi_closed_form [5; 4; 2; 1] 2); simpl; try lia.
  repeat constructor.
Defined.

(** ** The trend of a straight line *)

Lemma Qsum_of_line (a b : Q) (xs ys : list Q) :
  Forall2 (fun x y => y == a + b * x) xs ys ->
  Qsum ys == a * inject_Z (Z.of_nat (length xs)) + b * Qsum xs.
Proof.
  induction 1 as [|x y xs ys Hxy _ IH].
  - simpl. ring.
  - cbn [Qsum fold_right length]. fold (Qsum ys). fold (Qsum xs).
    rewrite IH, Hxy, Nat2Z.inj_succ, <- Z.add_1_r, inject_Z_plus.
    change (inject_Z 1) with 1. ring.
Qed.

Lemma cross_sum_of_line (a b xm ym : Q) (xs ys : list Q) :
  Forall2 (fun x y => y == a + b * x) xs ys ->
  ym == a + b * xm ->
  Qsum (map (fun xy => (fst xy - xm) * (snd xy - ym)) (combine xs ys))
  == b * Qsum (map (fun x => (x - xm) * (x - xm)) xs).
Proof.
  intros H Hm. induction H as [|x y xs ys Hxy _ IH].
  - simpl. ring.
  - cbn [combine map Qsum fold_right fst snd].
    fold (Qsum (map (fun xy => (fst xy - xm) * (snd xy - ym)) (combine xs ys))).
    fold (Qsum (map (fun x => (x - xm) * (x - xm)) xs)).
    rewrite IH, Hxy, Hm. ring.
Qed.

Lemma ols_slope_of_line (a b : Q) (ys : list Q) :
  (2 <= length ys)%nat ->
  Forall2 (fun x y => y == a + b * x) (indices (length ys)) ys ->
  ols_slope ys == b.
Proof.
  intros Hn Hline. unfold ols_slope.
  set (xs := indices (length ys)) in *.
  assert (Hlx : length xs = length ys) by apply length_indices.
  pose proof (inject_nat_pos (length ys) ltac:(lia)) as Hpos.
  assert (Hm : Qmean ys == a + b * Qmean xs).
  { unfold Qmean. rewrite (Qsum_of_line a b xs ys Hline), Hlx. field. lra. }
  rewrite (cross_sum_of_line a b (Qmean xs) (Qmean ys) xs ys Hline Hm).
  pose proof (Qmean_indices_pos (length ys) Hn) as Hxm. fold xs in Hxm.
  pose proof (squares_sum_pos (Qmean xs) (length ys) ltac:(lia) ltac:(lra))
    as Hsq.
  fold xs in Hsq. field. lra.
Qed.

Lemma shifted_line (a b : Q) (k m s : nat) :
  Forall2 (fun x y => y == (a + b * inject_Z (Z.of_nat k)) + b * x)
    (map (fun i => inject_Z (Z.of_nat i)) (seq s m))
    (map (fun x => a + b * x)
       (map (fun i => inject_Z (Z.of_nat i)) (seq (k + s) m))).
Proof.
  revert s. induction m as [|m IH]; intros s; cbn [seq map]; constructor.
  - rewrite Nat2Z.inj_add, inject_Z_plus. ring.
  - replace (S (k + s)) with (k + S s)%nat by lia. apply IH.
Qed.

Lemma lastn_straight_line (a b : Q) (n period : nat) :
  (period <= n)%nat ->
  Forall2 (fun x y => y == (a + b * inject_Z (Z.of_nat (n - period))) + b * x)
    (indices period) (lastn period (straight_line a b n)).
Proof.
  intros H. unfold lastn, straight_line, indices.
  rewrite !length_map, length_seq, !skipn_map, skipn_seq.
  replace (n - (n - period))%nat with period by lia.
  replace (0 + (n - period))%nat with ((n - period) + 0)%nat by lia.
  apply shifted_line.
Qed.

(** On closes that lie on the straight line a + b * i the trend over any
    window of at least two closes is the line's slope [b]: "Alcista" when
    [b] is positive, "Bajista" when it is zero or negative (a flat series
    is labelled bearish). *)
Theorem calculate_trend_of_straight_line (a b : Q) (n period : nat) :
  (2 <= period)%nat -> (period <= n)%nat ->
  let r := calculate_trend (map Fin (straight_line a b n)) period in
  fst r =f= Fin b /\
  (0 < b -> snd r = "Alcista"%string) /\
  (b <= 0 -> snd r = "Bajista"%string).
Proof.
  intros Hp Hn r. subst r. unfold calculate_trend.
  assert (Hlen : length (straight_line a b n) = n)
    by (unfold straight_line; now rewrite length_map, length_indices).
  rewrite length_map, Hlen.
  assert (E0 : (n =? 0)%nat = false) by (apply Nat.eqb_neq; lia).
  assert (E1 : (n <? period)%nat = false) by (apply Nat.ltb_ge; lia).
  rewrite E0, E1. cbn [orb fst snd].
  rewrite tail_Fin, length_map.
  set (ys := lastn period (straight_line a b n)).
  assert (Hl : length ys = period)
    by (apply length_lastn; rewrite Hlen; exact Hn).
  pose proof (linregress_slope_ols ys ltac:(lia)) as Hs.
  assert (Hb : ols_slope ys == b).
  { apply (ols_slope_of_line (a + b * inject_Z (Z.of_nat (n - period))) b);
      [lia|]. rewrite Hl. apply lastn_straight_line. exact Hn. }
  destruct (linregress_slope _ _) as [s| | |]; simpl in Hs; try contradiction.
  split; [simpl; lra|].
  unfold fgt, fcompare.
  destruct (Qcompare_spec s 0); split; intros; try reflexivity; lra.
Qed.

Lemma calculate_trend_of_straight_line_witness :
  snd (calculate_trend (map Fin (straight_line 4 0 40)) 30) = "Bajista"%string.
Proof.
  apply (calculate_trend_of_straight_line 4 0 40 30); try lia.
  vm_compute. discriminate.
Defined.

(** ** The projection without history *)

Lemma project_instrument_fallback (np_sqrt : float64 -> float64)
  (hist column : series) (price : float64) (span days : nat) :
  (length (dropna hist) < 2)%nat ->
  project_instrument np_sqrt hist column price span days = (price, price, price).
Proof.
  intros H. unfold project_instrument, project_future_price.
  destruct (length hist =? 0)%nat; [reflexivity|].
  apply Nat.ltb_lt in H. rewrite H. reflexivity.
Qed.

(** When no instrument has two available closes in its history, the
    projection prices all three orders at the current prices: the
    expected, minimum and maximum quantities all equal the current
    quantity. *)
Theorem projection_without_history (np_sqrt : float64 -> float64)
  (b p t : float64)
  (copper_hist oil_hist eur_cny_hist usd_cny_hist : series)
  (copper_col oil_col eur_cny_col usd_cny_col : series)
  (c o e u : float64) :
  (length (dropna copper_hist) < 2)%nat ->
  (length (dropna oil_hist) < 2)%nat ->
  (length (dropna eur_cny_hist) < 2)%nat ->
  (length (dropna usd_cny_hist) < 2)%nat ->
  let q := baseline_quantity b p t c o e u in
  projection np_sqrt b p t copper_hist oil_hist eur_cny_hist usd_cny_hist
    copper_col oil_col eur_cny_col usd_cny_col c o e u
  = (q, q, q).
Proof.
  intros Hc Ho He Hu q. subst q. unfold projection.
  rewrite !project_instrument_fallback by assumption.
  reflexivity.
Qed.

Lemma projection_without_history_witness :
  projection (fun x => x) 100000 50 1
    [Fin 4.4; NaN; NaN] [Fin 80] [] [NaN; Fin 7.2]
    [] [] [] [] 4.5 80 7.8 7.2
  = (baseline_quantity 100000 50 1 4.5 80 7.8 7.2,
     baseline_quantity 100000 50 1 4.5 80 7.8 7.2,
     baseline_quantity 100000 50 1 4.5 80 7.8 7.2).
Proof.
  apply (projection_without_history (fun x => x) 100000 50 1
           [Fin 4.4; NaN; NaN] [Fin 80] [] [NaN; Fin 7.2]
           [] [] [] [] 4.5 80 7.8 7.2); simpl; lia.
Defined.
